(** * Thermal batch renamer: queue state machine and archive manifest

    A shallow embedding of the core of the application: the helpers
    [getExtension] and [isImageFile], the handlers of the [App] component
    ([processFiles], [moveToStage2], [moveToStage3], [updateTemperature],
    [removeItem]), the preview effect, and [generateZipPackage] from
    [utils/zipUtils.ts].

    Conventions of the model.
    - JavaScript strings are [string]; characters are 8-bit [ascii].
    - The numbers of the program ([startIndex], the preview cursor) are
      doubles. They start from [1], from what [parseInt] returns and from
      sums with an array length, so they are [NaN], an infinity, a zero of
      either sign or an integer-valued double: the type [JS.Num]. [+] and
      [++] are the sum rounded to the nearest double, ties to even
      ([JS.add], [JS.incr]); [toString] prints the shortest digits that
      read back as the same double ([JS.toString]). The index arithmetic
      of [getExtension] stays within the integers, where [>>> 0] is
      reduction modulo [2^32].
    - Optional fields ([temperature?], [newName?], [previewName?]) are
      [option string]; JavaScript truthiness of such a field is [truthy].
    - [window.confirm] and [alert] are the constructors of the small
      interaction type [UI]; [Math.random] is an oracle argument.
    - React state is the record [State]; an event runs its handler and then
      the preview effect when one of its dependencies changed ([step]). *)

From Stdlib Require Import ZArith Ascii String List Lia.
From stdpp Require Import base tactics option list strings pretty.

Local Open Scope string_scope.
Local Open Scope Z_scope.

#[local] Arguments String.append !_ _ / : simpl nomatch.

(** ** String primitives of the host language *)

Module JS.

(** [s.length] *)
Definition len (s : string) : Z := Z.of_nat (String.length s).

(** Dropping the first [n] characters. *)
Fixpoint drop (n : nat) (s : string) : string :=
  match n, s with
  | O, _ => s
  | S _, EmptyString => EmptyString
  | S n', String _ s' => drop n' s'
  end.

(** [s.slice(start)]: a negative [start] counts from the end, and the
    start position is clamped to [0 .. s.length]. *)
Definition slice (s : string) (start : Z) : string :=
  let from := if start <? 0 then Z.max (len s + start) 0
              else Z.min start (len s) in
  drop (Z.to_nat from) s.

(** [s.lastIndexOf(c)] for a one-character search string: the index of
    the last occurrence, or [-1]. [i] is the index of the head of [s]
    and [acc] the last occurrence seen so far. *)
Fixpoint lastIndexOf_from (c : ascii) (s : string) (i acc : Z) : Z :=
  match s with
  | EmptyString => acc
  | String a s' =>
      lastIndexOf_from c s' (i + 1) (if Ascii.eqb a c then i else acc)
  end.

Definition lastIndexOf (c : ascii) (s : string) : Z :=
  lastIndexOf_from c s 0 (-1).

(** [x >>> 0]: conversion to an unsigned 32-bit integer. *)
Definition to_uint32 (x : Z) : Z := x mod 2 ^ 32.

(** [s.endsWith(suffix)] *)
Definition endsWith (s suffix : string) : bool :=
  let n := String.length s in
  let m := String.length suffix in
  if (m <=? n)%nat then String.eqb (drop (n - m) s) suffix else false.

(** A string of [n] copies of [c]. *)
Fixpoint replicate (n : nat) (c : ascii) : string :=
  match n with
  | O => EmptyString
  | S n' => String c (replicate n' c)
  end.

(** [s.padStart(target, c)] for a one-character filler. *)
Definition padStart (target : nat) (c : ascii) (s : string) : string :=
  replicate (target - String.length s) c ++ s.

(** *** Numbers

    The values a [number] of this program can take. [Fin z] is the double
    whose value is the integer [z]: it stands for a value of the program
    when [z] is a double ([isDouble] below), and such are the integers
    the operations return. [NegZero] is [-0], which [parseInt] returns
    for ["-0"]. Equality of two values of this type is [Object.is], the
    comparison of the dependencies of an effect. *)
Inductive Num := NaN | PosInf | NegInf | NegZero | Fin (z : Z).

(** A positive integer [m] rounded to 53 significant bits, to nearest and
    ties to even: [m = q * 2^e + r] with [2^52 <= q < 2^53]. *)
Definition roundMagnitude (m : Z) : Z :=
  let e := Z.log2 m - 52 in
  if e <=? 0 then m
  else
    let q := m / 2 ^ e in
    let r := m mod 2 ^ e in
    let half := 2 ^ (e - 1) in
    if (half <? r) || ((r =? half) && Z.odd q)
    then (q + 1) * 2 ^ e else q * 2 ^ e.

(** The double nearest to the integer [z]; what rounds to [2^1024] or
    beyond is an infinity. *)
Definition round (z : Z) : Num :=
  if z =? 0 then Fin 0
  else
    let v := roundMagnitude (Z.abs z) in
    if 2 ^ 1024 <=? v then (if z <? 0 then NegInf else PosInf)
    else Fin (Z.sgn z * v).

(** [Fin z] stands for a double when [z] is its own rounding. *)
Definition isDouble (n : Num) : Prop :=
  match n with
  | Fin z => round z = Fin z
  | _ => True
  end.

(** [x + y]. A number plus zero is that number, except that [-0 + 0]
    is [0]; any other sum of two integers is the exact sum, rounded
    (opposite numbers add up to [0]). *)
Definition add (x y : Num) : Num :=
  match x, y with
  | NaN, _ | _, NaN => NaN
  | PosInf, NegInf | NegInf, PosInf => NaN
  | PosInf, _ | _, PosInf => PosInf
  | NegInf, _ | _, NegInf => NegInf
  | NegZero, NegZero => NegZero
  | NegZero, Fin b => round b
  | Fin a, NegZero => Fin a
  | Fin a, Fin b => if b =? 0 then Fin a else round (a + b)
  end.

(** [x++], as far as the variable is concerned. *)
Definition incr (x : Num) : Num := add x (Fin 1).

(** [x <= y] read on the values, with [NaN] related to itself only:
    [y] is [x] or lies above it. *)
Definition notBelow (x y : Num) : Prop :=
  match x, y with
  | NaN, NaN => True
  | NaN, _ | _, NaN => False
  | NegInf, _ | _, PosInf => True
  | PosInf, _ | _, NegInf => False
  | NegZero, NegZero => True
  | NegZero, Fin b => 0 <= b
  | Fin a, NegZero => a <= 0
  | Fin a, Fin b => a <= b
  end.

(** The decimal numeral of an integer. *)
Definition numeral (z : Z) : string := pretty z.

Definition numDigits (x : Z) : Z := Z.of_nat (String.length (numeral x)).

(** Whether the integer [v] denotes the double [x], that is, rounds to
    it. *)
Definition roundTrips (x v : Z) : bool :=
  match round v with
  | Fin y => y =? x
  | _ => false
  end.

(** The shortest digits [s] (at least [k] of them) such that [s]
    followed by zeros up to [D] digits denotes [x]; of two candidates
    the one closer to [x], and the even one when they are as close. *)
Fixpoint shortest (fuel : nat) (k x D : Z) : Z :=
  match fuel with
  | O => x
  | S fuel' =>
      if D <=? k then x
      else
        let p := 10 ^ (D - k) in
        let lo := x / p in
        let hi := lo + 1 in
        let okLo := roundTrips x (lo * p) in
        let okHi := (hi <? 10 ^ k) && roundTrips x (hi * p) in
        let dLo := x - lo * p in
        let dHi := hi * p - x in
        if okLo && okHi then
          (if dLo <? dHi then lo
           else if dHi <? dLo then hi
           else if Z.even lo then lo else hi)
        else if okLo then lo
        else if okHi then hi
        else shortest fuel' (k + 1) x D
  end.

(** The digits [s] and the exponent [n] of [Number::toString]: [s]
    followed by zeros up to [n] digits denotes [x]. A double just below
    a power of ten that this power denotes is printed as the power. *)
Definition digitsOf (x : Z) : Z * Z :=
  let D := numDigits x in
  if roundTrips x (10 ^ D) then (1, D + 1) else (shortest 17 1 x D, D).

(** [x.toString()] for a positive integer-valued double [x]. Up to
    [2^53] every integer is a double of its own and all its digits are
    printed; beyond, the shortest digits, followed by zeros up to 21
    digits and in exponent notation from there. *)
Definition formatPositive (x : Z) : string :=
  if x <=? 2 ^ 53 then numeral x
  else
    let '(s, n) := digitsOf x in
    let k := numDigits s in
    if n <=? 21 then numeral s ++ replicate (Z.to_nat (n - k)) "0"
    else if k =? 1 then numeral s ++ "e+" ++ numeral (n - 1)
    else match numeral s with
         | String c rest =>
             String c ("." ++ rest) ++ "e+" ++ numeral (n - 1)
         | EmptyString => EmptyString
         end.

(** [n.toString()] *)
Definition toString (n : Num) : string :=
  match n with
  | NaN => "NaN"
  | PosInf => "Infinity"
  | NegInf => "-Infinity"
  | NegZero => "0"
  | Fin z =>
      if z =? 0 then "0"
      else if z <? 0 then "-" ++ formatPositive (- z)
      else formatPositive z
  end.

(** Every integer of magnitude up to [2^53] is a double, and the next
    one is not: within these bounds [+] and [++] are exact. *)
Definition exactLimit : Z := 2 ^ 53.

Definition exact (n : Z) : Prop := - exactLimit ≤ n ≤ exactLimit.

(** [s.split(sep)] for a one-character separator; the result is never
    empty ([""] splits into one empty part). *)
Fixpoint split (sep : ascii) (s : string) : list string :=
  match s with
  | EmptyString => [EmptyString]
  | String a s' =>
      if Ascii.eqb a sep then EmptyString :: split sep s'
      else match split sep s' with
           | part :: parts => String a part :: parts
           | [] => [String a EmptyString]
           end
  end.

(** Case folding of the [i] flag of a regular expression, on ASCII. *)
Definition lower (c : ascii) : ascii :=
  let n := nat_of_ascii c in
  if ((65 <=? n) && (n <=? 90))%nat then ascii_of_nat (n + 32) else c.

Fixpoint toLowerCase (s : string) : string :=
  match s with
  | EmptyString => EmptyString
  | String a s' => String (lower a) (toLowerCase s')
  end.

(** Whether the character [c] occurs in [s] ([s.includes(c)]). *)
Fixpoint includes (c : ascii) (s : string) : bool :=
  match s with
  | EmptyString => false
  | String a s' => Ascii.eqb a c || includes c s'
  end.

(** Truthiness of an optional string: [undefined] and [""] are falsy. *)
Definition truthy (o : option string) : bool :=
  match o with
  | Some s => negb (String.eqb s "")
  | None => false
  end.

End JS.

(** ** Helper to extract the extension *)

Definition getExtension (filename : string) : string :=
  JS.slice filename (JS.to_uint32 (JS.lastIndexOf "." filename - 1) + 2).

(** ** Data model ([types.ts]) *)

(** The browser's [File]: the three properties the program reads, and the
    bytes it hands to the archive. *)
Record File := mkFile {
  name : string;
  type : string;
  webkitRelativePath : string;
  bytes : list Byte.byte
}.

(** [stage: 1 | 2 | 3] (1: Import/Rename, 2: Analyze/Edit, 3: Export) *)
Inductive Stage := Stage1 | Stage2 | Stage3.

Inductive Status := idle | processing | success | error.

Global Instance Stage_eq_dec : EqDecision Stage.
Proof. solve_decision. Defined.
Global Instance Status_eq_dec : EqDecision Status.
Proof. solve_decision. Defined.
Global Instance byte_eq_dec : EqDecision Byte.byte := Byte.byte_eq_dec.
Global Instance Num_eq_dec : EqDecision JS.Num.
Proof. solve_decision. Defined.
Global Instance File_eq_dec : EqDecision File.
Proof. solve_decision. Defined.

Definition stageNum (g : Stage) : Z :=
  match g with Stage1 => 1 | Stage2 => 2 | Stage3 => 3 end.

(** [FileQueueItem]; the field [id] of the source is [item_id] here. *)
Record FileQueueItem := mkItem {
  item_id : string;
  file : File;
  originalName : string;
  folderName : string;
  stage : Stage;
  status : Status;
  temperature : option string;
  newName : option string;
  previewName : option string
}.

Global Instance FileQueueItem_eq_dec : EqDecision FileQueueItem.
Proof. solve_decision. Defined.

(** Object spreads [{ ...item, field: value }]. *)
Definition with_previewName (v : option string) (i : FileQueueItem) :=
  mkItem (item_id i) (file i) (originalName i) (folderName i) (stage i)
         (status i) (temperature i) (newName i) v.

Definition with_lock (i : FileQueueItem) :=
  mkItem (item_id i) (file i) (originalName i) (folderName i) Stage2
         idle (temperature i) (previewName i) (previewName i).

Definition with_stage (g : Stage) (i : FileQueueItem) :=
  mkItem (item_id i) (file i) (originalName i) (folderName i) g
         (status i) (temperature i) (newName i) (previewName i).

Definition with_temperature (value : string) (i : FileQueueItem) :=
  mkItem (item_id i) (file i) (originalName i) (folderName i) (stage i)
         (if JS.truthy (Some value) then success else idle)
         (Some value) (newName i) (previewName i).

(** The state of the [App] component: the queue and the configuration. *)
Record State := mkState {
  queue : list FileQueueItem;
  prefix : string;
  startIndex : JS.Num;
  filterSuffix : string;
  onlyFilter : bool
}.

Definition setQueue (f : list FileQueueItem → list FileQueueItem) (s : State) :=
  mkState (f (queue s)) (prefix s) (startIndex s) (filterSuffix s) (onlyFilter s).
Definition setPrefix (v : string) (s : State) :=
  mkState (queue s) v (startIndex s) (filterSuffix s) (onlyFilter s).
Definition setStartIndex (f : JS.Num → JS.Num) (s : State) :=
  mkState (queue s) (prefix s) (f (startIndex s)) (filterSuffix s) (onlyFilter s).
Definition setFilterSuffix (v : string) (s : State) :=
  mkState (queue s) (prefix s) (startIndex s) v (onlyFilter s).
Definition setOnlyFilter (b : bool) (s : State) :=
  mkState (queue s) (prefix s) (startIndex s) (filterSuffix s) b.

(** The initial values of the [useState] hooks. *)
Definition initial : State := mkState [] "01-" (JS.Fin 1) "-1" true.

(** ** Interaction with the user

    A handler either finishes with a value, asks a yes/no question
    ([window.confirm]) or shows a notice ([alert]). *)
Inductive UI (A : Type) : Type :=
| Ret (a : A)
| Confirm (msg : string) (k : bool → UI A)
| Alert (msg : string) (k : UI A).
Arguments Ret {A} a.
Arguments Confirm {A} msg k.
Arguments Alert {A} msg k.

(** Running a handler for a user who answers every question with [ok]. *)
Fixpoint reply {A} (ok : bool) (u : UI A) : A :=
  match u with
  | Ret a => a
  | Confirm _ k => reply ok (k ok)
  | Alert _ k => reply ok k
  end.

(** The questions asked and the notices shown on that run. *)
Fixpoint confirms {A} (ok : bool) (u : UI A) : list string :=
  match u with
  | Ret _ => []
  | Confirm msg k => msg :: confirms ok (k ok)
  | Alert _ k => confirms ok k
  end.

Fixpoint alerts {A} (ok : bool) (u : UI A) : list string :=
  match u with
  | Ret _ => []
  | Confirm _ k => alerts ok (k ok)
  | Alert msg k => msg :: alerts ok k
  end.

(** ** Helper to validate image types *)

Definition validTypes : list string :=
  ["image/jpeg"; "image/png"; "image/jpg"; "image/webp"].

(** [/\.(jpg|jpeg|png|webp)$/i.test(s)] *)
Definition imageExtensionTest (s : string) : bool :=
  let l := JS.toLowerCase s in
  JS.endsWith l ".jpg" || JS.endsWith l ".jpeg"
  || JS.endsWith l ".png" || JS.endsWith l ".webp".

Definition isImageFile (f : File) : bool :=
  bool_decide (type f ∈ validTypes) || imageExtensionTest (name f).

(** ** The preview effect

    [prevQueue.map] with the mutable local [currentSequence]: the cursor
    is threaded through the traversal. *)
Fixpoint recomputePreviews (prefix : string) (currentSequence : JS.Num)
    (prevQueue : list FileQueueItem) : list FileQueueItem :=
  match prevQueue with
  | [] => []
  | item :: rest =>
      if decide (stage item = Stage1) then
        let ext := getExtension (originalName item) in
        let sequenceStr := JS.padStart 3 "0" (JS.toString currentSequence) in
        let preview := prefix ++ sequenceStr ++ "." ++ ext in
        with_previewName (Some preview) item
          :: recomputePreviews prefix (JS.incr currentSequence) rest
      else item :: recomputePreviews prefix currentSequence rest
  end.

Definition previewEffect (s : State) : State :=
  setQueue (recomputePreviews (prefix s) (startIndex s)) s.

(** The dependency array [[prefix, startIndex, queue.length]]. *)
Definition effectDeps (s : State) : string * JS.Num * nat :=
  (prefix s, startIndex s, length (queue s)).

(** After an event the component re-renders; the effect runs when a
    dependency differs from the previous render. *)
Definition rerender (before after : State) : State :=
  if decide (effectDeps before = effectDeps after) then after
  else previewEffect after.

(** ** Handlers *)

Definition folderNameOf (f : File) : string :=
  let pathParts := JS.split "/" (webkitRelativePath f) in
  if (1 <? length pathParts)%nat
  then nth (length pathParts - 2) pathParts ""
  else "Root".

Definition newItem (id : string) (f : File) : FileQueueItem :=
  mkItem id f (name f) (folderNameOf f) Stage1 idle None None None.

Definition dquote : string := String "034"%char EmptyString.

(** [random k] is the string [Math.random().toString(36).substr(2, 9)]
    obtained for the [k]-th image file of the call. *)
Definition processFiles (random : nat → string) (files : list File)
    (s : State) : UI State :=
  let imageFiles := filter (λ f, isImageFile f) files in
  if ((length imageFiles =? 0) && (0 <? length files))%nat then
    Alert "No valid image files (JPG, PNG) found." (Ret s)
  else
    let newItems := imap (λ k f, newItem (random k) f) imageFiles in
    let filteredFiles :=
      if onlyFilter s
      then filter (λ f, JS.endsWith (folderName f) (filterSuffix s)) newItems
      else newItems in
    let finish := Ret (setQueue (λ prev, (prev ++ filteredFiles)%list) s) in
    if ((length filteredFiles =? 0) && (0 <? length newItems))%nat then
      Alert ("No files found in folders ending with " ++ dquote
             ++ filterSuffix s ++ dquote ++ ".") finish
    else finish.

Definition moveToStage2 (s : State) : UI State :=
  Confirm "Confirm renaming? This will lock the filenames." (λ ok,
    if ok then
      let stage1Count :=
        length (filter (λ i, stage i = Stage1) (queue s)) in
      Ret (setStartIndex (λ prev, JS.add prev (JS.Fin (Z.of_nat stage1Count)))
            (setQueue (map (λ item,
               if decide (stage item = Stage1) then with_lock item else item)) s))
    else Ret s).

Definition moveToStage3 (s : State) : UI State :=
  let incomplete :=
    existsb (λ i, bool_decide (stage i = Stage2) && negb (JS.truthy (temperature i)))
            (queue s) in
  let advance :=
    setQueue (map (λ item,
      if decide (stage item = Stage2) then with_stage Stage3 item else item)) s in
  if incomplete then
    Confirm "Some images don't have a temperature value yet. Proceed anyway?"
      (λ ok, if ok then Ret advance else Ret s)
  else Ret advance.

Definition updateTemperature (id value : string) (s : State) : State :=
  setQueue (map (λ item,
    if decide (item_id item = id) then with_temperature value item else item)) s.

Definition removeItem (id : string) (s : State) : State :=
  setQueue (filter (λ item, item_id item ≠ id)) s.

(** ** Events

    [ChangeStartIndex v] is a change of the Start # field whose text
    [parseInt] turns into [v]: [NaN] when the text does not start with
    a number (the emptied field), otherwise the double nearest to the
    integer read. *)

Inductive Event :=
| ChangePrefix (v : string)
| ChangeStartIndex (v : JS.Num)
| ChangeFilterSuffix (v : string)
| ChangeOnlyFilter (b : bool)
| SelectFiles (random : nat → string) (files : list File)
| ClickMoveToStage2 (ok : bool)
| ClickMoveToStage3 (ok : bool)
| EditTemperature (id value : string)
| ClickRemove (id : string).

(** The handler of an event; [ok] is the user's answer to a question the
    handler may ask. *)
Definition handle (e : Event) (s : State) : State :=
  match e with
  | ChangePrefix v => setPrefix v s
  | ChangeStartIndex v => setStartIndex (λ _, v) s
  | ChangeFilterSuffix v => setFilterSuffix v s
  | ChangeOnlyFilter b => setOnlyFilter b s
  | SelectFiles random files => reply true (processFiles random files s)
  | ClickMoveToStage2 ok => reply ok (moveToStage2 s)
  | ClickMoveToStage3 ok => reply ok (moveToStage3 s)
  | EditTemperature id value => updateTemperature id value s
  | ClickRemove id => removeItem id s
  end.

Definition step (s : State) (e : Event) : State := rerender s (handle e s).

Definition run (s : State) (events : list Event) : State :=
  fold_left step events s.

(** ** Archive assembly ([utils/zipUtils.ts])

    The archive under construction is the sequence of [zip.file(name, data)]
    calls made on the [JSZip] object, in call order. *)

Inductive Data :=
| FileData (f : File)
| TextData (s : string).

Definition Zip := list (string * Data).

Definition zip_file (path : string) (data : Data) (zip : Zip) : Zip :=
  (zip ++ [(path, data)])%list.

Definition csvHeader : string :=
  String.append "Original Name,New Name,Folder,Temperature"
                (String "010"%char EmptyString).

Definition newline : string := String "010"%char EmptyString.

(** The template literal of one manifest row. *)
Definition csvRow (originalName newName folderName safeTemp : string) : string :=
  dquote ++ originalName ++ dquote ++ "," ++ dquote ++ newName ++ dquote ++ ","
  ++ dquote ++ folderName ++ dquote ++ "," ++ dquote ++ safeTemp ++ dquote
  ++ newline.

(** [item.temperature || "N/A"] *)
Definition safeTemp (item : FileQueueItem) : string :=
  if JS.truthy (temperature item) then default "" (temperature item) else "N/A".

(** One iteration of the [forEach]: the state is the archive and
    [csvContent]. *)
Definition addItem (acc : Zip * string) (item : FileQueueItem) : Zip * string :=
  let '(zip, csvContent) := acc in
  if JS.truthy (newName item) then
    let n := default "" (newName item) in
    (zip_file n (FileData (file item)) zip,
     csvContent ++ csvRow (originalName item) n (folderName item) (safeTemp item))
  else acc.

(** The calls made before [zip.generateAsync]; the blob itself is the
    library's business. *)
Definition generateZipPackage (processedFiles : list FileQueueItem) : Zip :=
  let '(zip, csvContent) := fold_left addItem processedFiles ([], csvHeader) in
  zip_file "data_summary.csv" (TextData csvContent) zip.

(** [handleDownload]: nothing happens without a Stage 3 item. *)
Definition handleDownload (s : State) : option Zip :=
  let stage3Items := filter (λ i, stage i = Stage3) (queue s) in
  if (length stage3Items =? 0)%nat then None
  else Some (generateZipPackage stage3Items).

(** ** Views used by the statements *)

(** The per-stage columns of the page: [queue.filter(i => i.stage === g)]. *)
Definition stageView (g : Stage) (q : list FileQueueItem) : list FileQueueItem :=
  filter (λ i, stage i = g) q.

(** The name the preview pass composes for sequence number [n]. *)
Definition previewAt (prefix : string) (n : JS.Num) (item : FileQueueItem) : string :=
  prefix ++ JS.padStart 3 "0" (JS.toString n) ++ "."
  ++ getExtension (originalName item).

(** The cursor [currentSequence] after [k] increments. *)
Definition cursorAfter (k : nat) (n : JS.Num) : JS.Num := Nat.iter k JS.incr n.

(** The number of Stage 1 items in front of position [i]. *)
Definition rank (q : list FileQueueItem) (i : nat) : nat :=
  length (stageView Stage1 (take i q)).

(** The items [processFiles] appends: [filteredFiles]. *)
Definition filteredFiles (random : nat → string) (files : list File)
    (s : State) : list FileQueueItem :=
  let newItems :=
    imap (λ k f, newItem (random k) f) (filter (λ f, isImageFile f) files) in
  if onlyFilter s
  then filter (λ f, JS.endsWith (folderName f) (filterSuffix s)) newItems
  else newItems.

(** Removing the zeros in front of a string. *)
Fixpoint stripZeros (s : string) : string :=
  match s with
  | String a s' => if Ascii.eqb a "0" then stripZeros s' else s
  | EmptyString => EmptyString
  end.

(** The files of three batches used in the examples. *)
Definition photo (path fileName : string) : File :=
  mkFile fileName "" (path ++ "/" ++ fileName) [].

Definition batchA : list File :=
  [photo "siteA-1" "a.jpg"; photo "siteA-1" "b.png"; photo "siteA-1" "c.webp"].
Definition batchB : list File :=
  [photo "siteB-1" "d.jpeg"; photo "siteB-1" "e.JPG"].
Definition batchC : list File :=
  [photo "siteA-1" "a.jpg"; photo "siteA-2" "b.jpg"; photo "siteB-1" "c.jpg"].

(** Two generators: one that numbers its draws from [base], one that
    always returns the same string. *)
Definition counting (base : nat) (k : nat) : string := pretty (base + k)%nat.
Definition stuck (k : nat) : string := "k3x9q0a1z".

(** Concatenation of the rows of a table. *)
Definition joinRows (rows : list string) : string :=
  foldr String.append "" rows.

(** ** Relations between two states of the queue *)

(** [persists it it']: [it'] is a later state of the item [it]. The
    identifier, the file and the two names taken from the file are the
    same, the stage did not go back, and a name that was already locked
    is still the same. *)
Definition persists (it it' : FileQueueItem) : Prop :=
  item_id it' = item_id it ∧ file it' = file it
  ∧ originalName it' = originalName it ∧ folderName it' = folderName it
  ∧ stageNum (stage it) ≤ stageNum (stage it')
  ∧ (stage it ≠ Stage1 → newName it' = newName it).

(** The identifiers passed to [removeItem] by a sequence of events. *)
Definition removedBy (e : Event) : list string :=
  match e with ClickRemove id => [id] | _ => [] end.

Definition removedIds (events : list Event) : list string :=
  concat (map removedBy events).

(** [evolves ids q q']: [q'] consists of later states of the items of [q]
    whose identifier is not in [ids], in the order of [q], followed by
    items that are not from [q]. *)
Definition evolves (ids : list string) (q q' : list FileQueueItem) : Prop :=
  ∃ olds news,
    q' = (olds ++ news)%list
    ∧ Forall2 persists (filter (λ it, item_id it ∉ ids) q) olds.

(** The previews in the queue are those of the current configuration. *)
Definition settled (s : State) : Prop :=
  recomputePreviews (prefix s) (startIndex s) (queue s) = queue s.

(** The identifiers drawn from the generator by a sequence of events: one
    per image file of every batch. *)
Definition drawnBy (e : Event) : list string :=
  match e with
  | SelectFiles random files =>
      imap (λ k _, random k) (filter (λ f, isImageFile f) files)
  | _ => []
  end.

Definition drawnIds (events : list Event) : list string :=
  concat (map drawnBy events).

(** ** Further handlers and views *)

(** [handleFileSelect] and [handleDrop]: both pass a non-empty selection
    to [processFiles] and do nothing for an empty one (resetting the file
    input and the two [preventDefault] calls touch no state). *)
Definition handleFileSelect (random : nat → string) (files : list File)
    (s : State) : UI State :=
  if (0 <? length files)%nat then processFiles random files s else Ret s.

Definition handleDrop (random : nat → string) (files : list File)
    (s : State) : UI State :=
  if (0 <? length files)%nat then processFiles random files s else Ret s.

(** The controls the page offers in a state: the remove button sits on
    the Stage 1 cards, the temperature input on the Stage 2 cards, the two
    confirm buttons are disabled for an empty column, and the suffix input
    is disabled while the filter is off. *)
Definition offered (s : State) (e : Event) : Prop :=
  match e with
  | ClickRemove id => ∃ it, it ∈ stageView Stage1 (queue s) ∧ item_id it = id
  | EditTemperature id _ => ∃ it, it ∈ stageView Stage2 (queue s) ∧ item_id it = id
  | ClickMoveToStage2 _ => stageView Stage1 (queue s) ≠ []
  | ClickMoveToStage3 _ => stageView Stage2 (queue s) ≠ []
  | ChangeFilterSuffix _ => onlyFilter s = true
  | _ => True
  end.

(** A run in which every event is one the page offers at that moment. *)
Fixpoint offeredRun (s : State) (events : list Event) : Prop :=
  match events with
  | [] => True
  | e :: rest => offered s e ∧ offeredRun (step s e) rest
  end.

(** The items whose name is locked, and their names. *)
Definition lockedItems (q : list FileQueueItem) : list FileQueueItem :=
  filter (λ it, stage it ≠ Stage1) q.

Definition lockedNames (q : list FileQueueItem) : list (option string) :=
  map newName (lockedItems q).

(** Events that leave the naming configuration alone. *)
Definition keepsNaming (e : Event) : Prop :=
  match e with
  | ChangePrefix _ | ChangeStartIndex _ => False
  | _ => True
  end.

(** The number of occurrences of a character. *)
Fixpoint countChar (c : ascii) (s : string) : nat :=
  match s with
  | EmptyString => 0
  | String a s' => ((if Ascii.eqb a c then 1 else 0) + countChar c s')%nat
  end.

(** The characters of a decimal numeral, and whether some dot of a text
    directly follows one of them. *)
Definition isNumeralChar (c : ascii) : bool :=
  let n := nat_of_ascii c in ((48 <=? n) && (n <=? 57) || (n =? 45))%nat.

Fixpoint dotAfterNumeral (s : string) : bool :=
  match s with
  | String a ((String b _) as s') =>
      (isNumeralChar a && Ascii.eqb b ".") || dotAfterNumeral s'
  | _ => false
  end.

(** The data model the handlers maintain, item by item. *)
Definition wellFormed (it : FileQueueItem) : Prop :=
  originalName it = name (file it)
  ∧ folderName it = folderNameOf (file it)
  ∧ isImageFile (file it) = true
  ∧ (status it = idle ∨ (status it = success ∧ JS.truthy (temperature it) = true))
  ∧ (stage it = Stage1 → newName it = None)
  ∧ (stage it ≠ Stage1 → newName it = previewName it ∧ JS.truthy (newName it) = true).

(** The start index is an integer from [lo] on with room for [room] more
    items below [JS.exactLimit]; every locked name was composed with the
    current prefix for an integer from [lo] up to the start index, and no
    two locked names are the same. *)
Definition numbered (lo : Z) (room : nat) (s : State) : Prop :=
  ∃ cur,
    startIndex s = JS.Fin cur
    ∧ - JS.exactLimit ≤ lo ≤ cur
    ∧ cur + Z.of_nat (length (stageView Stage1 (queue s))) + Z.of_nat room
      ≤ JS.exactLimit
    ∧ Forall (λ it, stage it ≠ Stage1 →
                ∃ n, newName it = Some (previewAt (prefix s) (JS.Fin n) it)
                     ∧ lo ≤ n < cur) (queue s)
    ∧ NoDup (lockedNames (queue s)).

(** Events other than an edit of the start index. *)
Definition keepsStartIndex (e : Event) : Prop :=
  match e with ChangeStartIndex _ => False | _ => True end.

(** Whether a text consists of numeral characters only. *)
Fixpoint allNumeral (s : string) : bool :=
  match s with
  | EmptyString => true
  | String a s' => isNumeralChar a && allNumeral s'
  end.

(** The files the user selected in a sequence of events. *)
Definition selectedBy (e : Event) : list File :=
  match e with SelectFiles _ files => files | _ => [] end.

Definition selectedFiles (events : list Event) : list File :=
  concat (map selectedBy events).

(** [carried q q']: every locked item of [q] has a later state among the
    locked items of [q'], in the same order. *)
Definition carried (q q' : list FileQueueItem) : Prop :=
  ∃ l', l' `sublist_of` lockedItems q' ∧ Forall2 persists (lockedItems q) l'.

(** No field of the manifest line of an item contains a line break. *)
Definition fieldsOnOneLine (it : FileQueueItem) : Prop :=
  JS.includes "010" (originalName it) = false
  ∧ JS.includes "010" (default "" (newName it)) = false
  ∧ JS.includes "010" (folderName it) = false
  ∧ JS.includes "010" (safeTemp it) = false.

(** Membership in an explicit list. *)
Ltac pick_member :=
  repeat first [apply list_elem_of_here | apply list_elem_of_further].

(** * Properties *)

(** ** Strings *)

Section StringFacts.

Local Open Scope nat_scope.

Lemma drop_app_length (p t : string) : JS.drop (String.length p) (p ++ t) = t.
Proof. induction p as [|a p IH]; simpl; auto. Qed.

Lemma drop_all (n : nat) (s : string) : String.length s ≤ n → JS.drop n s = "".
Proof.
  revert s; induction n as [|n IH]; intros [|a s]; simpl; intros H;
    try reflexivity; try lia.
  apply IH; lia.
Qed.

Lemma length_append (p t : string) :
  String.length (p ++ t) = String.length p + String.length t.
Proof. induction p as [|a p IH]; simpl; [done|]. by rewrite IH. Qed.

Lemma append_assoc (p q r : string) : ((p ++ q) ++ r = p ++ (q ++ r))%string.
Proof. induction p as [|a p IH]; simpl; [done|]. by rewrite IH. Qed.

Lemma append_nil_r (p : string) : (p ++ "")%string = p.
Proof. induction p as [|a p IH]; simpl; [done|]. by rewrite IH. Qed.

Lemma includes_append (c : ascii) (p t : string) :
  JS.includes c (p ++ t) = JS.includes c p || JS.includes c t.
Proof.
  induction p as [|a p IH]; simpl; [reflexivity|].
  rewrite IH. apply orb_assoc.
Qed.

Lemma includes_drop (c : ascii) (n : nat) (s : string) :
  JS.includes c s = false → JS.includes c (JS.drop n s) = false.
Proof.
  revert s; induction n as [|n IH]; intros [|a s]; simpl; auto.
  intros H. apply orb_false_iff in H as [_ H]. auto.
Qed.

(** Every string that contains [c] splits at its last occurrence. *)
Lemma last_occurrence (c : ascii) (s : string) :
  JS.includes c s = true →
  ∃ p t, s = (p ++ String c t)%string ∧ JS.includes c t = false.
Proof.
  induction s as [|a s IH]; simpl; [discriminate|].
  intros H. destruct (JS.includes c s) eqn:Hs.
  - destruct (IH eq_refl) as (p & t & -> & Ht).
    exists (String a p), t. auto.
  - rewrite orb_false_r in H. apply Ascii.eqb_eq in H as ->.
    exists ""%string, s. auto.
Qed.

(** Two splits at a first occurrence of [c] coincide. *)
Lemma first_occurrence_unique (c : ascii) (p q t u : string) :
  JS.includes c p = false → JS.includes c q = false →
  (p ++ String c t = q ++ String c u)%string → p = q ∧ t = u.
Proof.
  revert q; induction p as [|a p IH]; intros [|b q]; simpl; intros Hp Hq E.
  - by inversion E.
  - inversion E; subst. by rewrite Ascii.eqb_refl in Hq.
  - inversion E; subst. by rewrite Ascii.eqb_refl in Hp.
  - inversion E; subst.
    apply orb_false_iff in Hp as [_ Hp]. apply orb_false_iff in Hq as [_ Hq].
    destruct (IH q Hp Hq) as [-> ->]; auto.
Qed.

Lemma append_inv_head (p t u : string) : (p ++ t = p ++ u)%string → t = u.
Proof. induction p as [|a p IH]; simpl; intros E; [done|]. inversion E; auto. Qed.

End StringFacts.

(** ** Numbers *)

Section Numbers.

Implicit Types (m x y z a b : Z).

Lemma roundMagnitude_small m : 0 < m → m ≤ 2 ^ 53 → JS.roundMagnitude m = m.
Proof.
  intros H0 H. unfold JS.roundMagnitude.
  destruct (decide (m = 2 ^ 53)) as [->|N]; [by vm_compute|].
  assert (Z.log2 m < 53) by (apply Z.log2_lt_pow2; lia).
  by rewrite (proj2 (Z.leb_le _ _)) by lia.
Qed.

Lemma round_safe z : JS.exact z → JS.round z = JS.Fin z.
Proof.
  unfold JS.exact, JS.exactLimit, JS.round. intros H.
  destruct (Z.eqb_spec z 0) as [->|N]; [done|].
  rewrite roundMagnitude_small by lia.
  assert (Z.abs z < 2 ^ 1024).
  { apply Z.le_lt_trans with (2 ^ 53); [lia|]. by vm_compute. }
  rewrite (proj2 (Z.leb_gt _ _)) by done.
  f_equal. lia.
Qed.

Lemma add_safe a b :
  JS.exact (a + b) →
  JS.add (JS.Fin a) (JS.Fin b) = JS.Fin (a + b).
Proof.
  intros H. unfold JS.add.
  destruct (Z.eqb_spec b 0) as [->|Nb]; [by rewrite Z.add_0_r|].
  by apply round_safe.
Qed.

(** On doubles [JS.add] is the exact sum, rounded. *)
Lemma add_rounded_sum a b :
  JS.isDouble (JS.Fin a) → JS.add (JS.Fin a) (JS.Fin b) = JS.round (a + b).
Proof.
  intros D. unfold JS.add. destruct (Z.eqb_spec b 0) as [->|N]; [|done].
  by rewrite Z.add_0_r.
Qed.

Lemma cursorAfter_safe (k : nat) z :
  - JS.exactLimit ≤ z → z + Z.of_nat k ≤ JS.exactLimit →
  cursorAfter k (JS.Fin z) = JS.Fin (z + Z.of_nat k).
Proof.
  intros Hl. induction k as [|k IH]; intros Hu.
  - simpl. by rewrite Z.add_0_r.
  - unfold cursorAfter in *. simpl Nat.iter. rewrite IH by lia.
    unfold JS.incr. rewrite add_safe by (unfold JS.exact; lia). f_equal. lia.
Qed.

Lemma numeral_negative (p : positive) :
  JS.numeral (Z.neg p) = "-" ++ JS.numeral (Z.pos p).
Proof. done. Qed.

Lemma toString_safe z :
  JS.exact z → JS.toString (JS.Fin z) = JS.numeral z.
Proof.
  unfold JS.exact, JS.exactLimit. intros H. unfold JS.toString, JS.formatPositive.
  destruct z as [|p|p]; [done|..].
  - change (Z.pos p =? 0) with false. change (Z.pos p <? 0) with false.
    cbv iota. by rewrite (proj2 (Z.leb_le _ _)) by lia.
  - change (Z.neg p =? 0) with false. change (Z.neg p <? 0) with true.
    cbv iota. change (- Z.neg p) with (Z.pos p).
    by rewrite (proj2 (Z.leb_le _ _)) by lia.
Qed.


(** The operations at the edges of the integers. *)
Example number_examples :
  JS.incr (JS.Fin 7) = JS.Fin 8
  ∧ JS.incr JS.NaN = JS.NaN
  ∧ JS.incr JS.NegZero = JS.Fin 1
  ∧ JS.add JS.NegZero (JS.Fin 0) = JS.Fin 0
  ∧ JS.incr (JS.Fin (2 ^ 53 - 1)) = JS.Fin (2 ^ 53)
  ∧ JS.incr (JS.Fin (2 ^ 53)) = JS.Fin (2 ^ 53)
  ∧ JS.add (JS.Fin (2 ^ 53)) (JS.Fin 3) = JS.Fin (2 ^ 53 + 4)
  ∧ JS.round (2 ^ 53 + 1) = JS.Fin (2 ^ 53)
  ∧ JS.round (2 ^ 1024) = JS.PosInf
  ∧ JS.round (2 ^ 1024 - 2 ^ 971) = JS.Fin (2 ^ 1024 - 2 ^ 971).
Proof. by vm_compute. Qed.

Example toString_examples :
  JS.toString (JS.Fin 5) = "5"
  ∧ JS.toString (JS.Fin (-12)) = "-12"
  ∧ JS.toString JS.NaN = "NaN"
  ∧ JS.toString JS.NegZero = "0"
  ∧ JS.toString (JS.Fin (2 ^ 53)) = "9007199254740992"
  ∧ JS.toString (JS.Fin (2 ^ 64)) = "18446744073709552000"
  ∧ JS.toString (JS.Fin (10 ^ 21)) = "1e+21"
  ∧ JS.toString (JS.Fin (2 ^ 70)) = "1.1805916207174113e+21"
  ∧ JS.toString (JS.Fin (- 2 ^ 100)) = "-1.2676506002282294e+30"
  ∧ JS.toString (JS.round (10 ^ 23)) = "1e+23".
Proof. by vm_compute. Qed.

(** *** Rounding *)

Lemma pow2_pos e : 0 < 2 ^ e ∨ e < 0.
Proof. destruct (Z.lt_ge_cases e 0); [by right|left; by apply Z.pow_pos_nonneg]. Qed.

Lemma log2_bounds m :
  0 < m → 2 ^ Z.log2 m ≤ m < 2 ^ (Z.log2 m + 1).
Proof. intros H. pose proof (Z.log2_spec m H). by rewrite <- Z.add_1_r in *. Qed.

(** The shape of a magnitude with more than 53 bits. *)
Lemma magnitude_split m :
  0 < m → 0 < Z.log2 m - 52 →
  let e := Z.log2 m - 52 in
  let q := m / 2 ^ e in
  let r := m mod 2 ^ e in
  m = q * 2 ^ e + r ∧ 0 ≤ r < 2 ^ e ∧ 2 ^ 52 ≤ q < 2 ^ 53 ∧ 0 < 2 ^ e.
Proof.
  intros Hm He e q r.
  assert (0 < 2 ^ e) as Hp by (apply Z.pow_pos_nonneg; lia).
  pose proof (log2_bounds m Hm) as [Hl Hu].
  replace (Z.log2 m) with (52 + e) in Hl by (unfold e; lia).
  replace (Z.log2 m + 1) with (53 + e) in Hu by (unfold e; lia).
  rewrite Z.pow_add_r in Hl, Hu by lia.
  repeat split.
  - unfold q, r. rewrite Z.mul_comm. apply Z.div_mod. lia.
  - apply Z.mod_pos_bound; lia.
  - apply Z.mod_pos_bound; lia.
  - apply Z.div_le_lower_bound; lia.
  - apply Z.div_lt_upper_bound; lia.
  - done.
Qed.

Lemma roundMagnitude_exact m :
  0 < m → Z.log2 m - 52 ≤ 0 → JS.roundMagnitude m = m.
Proof.
  intros _ H. unfold JS.roundMagnitude. by rewrite (proj2 (Z.leb_le _ _)) by done.
Qed.

Lemma roundMagnitude_between m :
  0 < m → 0 < Z.log2 m - 52 →
  let e := Z.log2 m - 52 in
  let q := m / 2 ^ e in
  (JS.roundMagnitude m = q * 2 ^ e ∨ JS.roundMagnitude m = (q + 1) * 2 ^ e).
Proof.
  intros Hm He e q. unfold JS.roundMagnitude. fold e. fold q.
  rewrite (proj2 (Z.leb_gt _ _)) by done. case_match; auto.
Qed.

Lemma roundMagnitude_pos m : 0 < m → 0 < JS.roundMagnitude m.
Proof.
  intros Hm. destruct (Z.le_gt_cases (Z.log2 m - 52) 0) as [H|H].
  - by rewrite roundMagnitude_exact.
  - destruct (magnitude_split m Hm) as (_ & _ & Hq & Hp); [lia|].
    destruct (roundMagnitude_between m Hm) as [-> | ->]; [lia|..]; nia.
Qed.

Lemma roundMagnitude_idem m :
  0 < m → JS.roundMagnitude (JS.roundMagnitude m) = JS.roundMagnitude m.
Proof.
  intros Hm. destruct (Z.le_gt_cases (Z.log2 m - 52) 0) as [H|H].
  - rewrite (roundMagnitude_exact m) by done. by apply roundMagnitude_exact.
  - destruct (magnitude_split m Hm) as (_ & _ & Hq & Hp); [lia|].
    set (e := Z.log2 m - 52) in *. set (q := m / 2 ^ e) in *.
    assert (∃ c, JS.roundMagnitude m = c * 2 ^ e ∧ 2 ^ 52 ≤ c ≤ 2 ^ 53)
      as (c & -> & Hc).
    { destruct (roundMagnitude_between m Hm) as [E|E]; [lia|..]; fold e q in E;
        eexists; (split; [exact E|lia]). }
    clearbody q e.
    destruct (decide (c = 2 ^ 53)) as [->|N].
    + assert (Z.log2 (2 ^ 53 * 2 ^ e) = 53 + e) as L.
      { rewrite <- Z.pow_add_r by lia. apply Z.log2_pow2. lia. }
      unfold JS.roundMagnitude. rewrite L.
      rewrite (proj2 (Z.leb_gt _ _)) by lia.
      replace (53 + e - 52) with (e + 1) by lia.
      replace (2 ^ 53 * 2 ^ e) with (2 ^ 52 * 2 ^ (e + 1))
        by (rewrite (Z.pow_add_r 2 e 1) by lia; lia).
      rewrite Z.div_mul, Z.mod_mul by (apply Z.pow_nonzero; lia).
      replace (e + 1 - 1) with e by lia.
      rewrite (proj2 (Z.ltb_ge _ _)) by lia.
      rewrite (proj2 (Z.eqb_neq _ _)) by lia. done.
    + assert (Z.log2 (c * 2 ^ e) = 52 + e) as L.
      { apply Z.log2_unique; [lia|].
        replace (Z.succ (52 + e)) with (53 + e) by lia.
        rewrite !Z.pow_add_r by lia. split.
        - apply Z.mul_le_mono_nonneg_r; lia.
        - apply Z.mul_lt_mono_pos_r; [done|lia]. }
      unfold JS.roundMagnitude. rewrite L.
      replace (52 + e - 52) with e by lia.
      rewrite (proj2 (Z.leb_gt _ _)) by lia.
      rewrite Z.div_mul, Z.mod_mul by lia.
      assert (0 < 2 ^ (e - 1)) by (apply Z.pow_pos_nonneg; lia).
      rewrite (proj2 (Z.ltb_ge _ _)) by lia.
      rewrite (proj2 (Z.eqb_neq _ _)) by lia. done.
Qed.

Lemma roundMagnitude_mono x y :
  0 < x → x ≤ y → JS.roundMagnitude x ≤ JS.roundMagnitude y.
Proof.
  intros Hx Hxy. assert (0 < y) as Hy by lia.
  pose proof (Z.log2_le_mono x y Hxy) as Hl.
  destruct (Z.le_gt_cases (Z.log2 y - 52) 0) as [Ey|Ey].
  { rewrite !roundMagnitude_exact by lia. done. }
  destruct (magnitude_split y Hy) as (Dy & Ry & Qy & Py); [lia|].
  pose proof (roundMagnitude_between y Hy ltac:(lia)) as By.
  set (ey := Z.log2 y - 52) in *. set (qy := y / 2 ^ ey) in *.
  assert (qy * 2 ^ ey ≤ JS.roundMagnitude y) as Ly by (destruct By; nia).
  destruct (Z.le_gt_cases (Z.log2 x - 52) 0) as [Ex|Ex].
  { rewrite (roundMagnitude_exact x) by lia.
    pose proof (log2_bounds x Hx) as [_ Hu].
    assert (x < 2 ^ 53).
    { eapply Z.lt_le_trans; [exact Hu|]. apply Z.pow_le_mono_r; lia. }
    assert (2 ^ 1 ≤ 2 ^ ey) by (apply Z.pow_le_mono_r; lia).
    replace (2 ^ 1) with 2 in * by done. nia. }
  destruct (magnitude_split x Hx) as (Dx & Rx & Qx & Px); [lia|].
  pose proof (roundMagnitude_between x Hx ltac:(lia)) as Bx.
  set (ex := Z.log2 x - 52) in *. set (qx := x / 2 ^ ex) in *.
  assert (JS.roundMagnitude x ≤ (qx + 1) * 2 ^ ex) as Ux by (destruct Bx; nia).
  destruct (decide (ex = ey)) as [E|N].
  - assert (qx ≤ qy) as Q.
    { unfold qx, qy. rewrite E. apply Z.div_le_mono; lia. }
    destruct (decide (qx = qy)) as [Eq|Nq]; [|rewrite E in Ux; nia].
    assert (x mod 2 ^ ex ≤ y mod 2 ^ ey) as R.
    { rewrite E, Eq in Dx. rewrite E. nia. }
    unfold JS.roundMagnitude. fold ex ey qx qy.
    rewrite !(proj2 (Z.leb_gt _ _)) by lia.
    rewrite E, Eq in *.
    destruct (Z.ltb_spec (2 ^ (ey - 1)) (x mod 2 ^ ey)) as [A|A]; simpl.
    + rewrite (proj2 (Z.ltb_lt _ _)) by lia. simpl. lia.
    + destruct (Z.eqb_spec (x mod 2 ^ ey) (2 ^ (ey - 1))) as [B|B]; simpl.
      * destruct (Z.odd qy); simpl; [|repeat case_match; nia].
        destruct (Z.ltb_spec (2 ^ (ey - 1)) (y mod 2 ^ ey)); simpl; [lia|].
        rewrite (proj2 (Z.eqb_eq _ _)) by lia. simpl. lia.
      * repeat case_match; nia.
  - assert (ex + 1 ≤ ey) as Lt by (unfold ex, ey; lia).
    assert (2 ^ (ex + 1) ≤ 2 ^ ey) as Pw by (apply Z.pow_le_mono_r; lia).
    rewrite Z.pow_add_r in Pw by lia. replace (2 ^ 1) with 2 in Pw by done.
    nia.
Qed.

Lemma round_nonzero z :
  z ≠ 0 →
  JS.round z
  = if 2 ^ 1024 <=? JS.roundMagnitude (Z.abs z)
    then (if z <? 0 then JS.NegInf else JS.PosInf)
    else JS.Fin (Z.sgn z * JS.roundMagnitude (Z.abs z)).
Proof. intros N. unfold JS.round. by rewrite (proj2 (Z.eqb_neq _ _)). Qed.

(** Rounding twice is rounding once: what [JS.round] returns is a
    double. *)
Lemma round_isDouble z : JS.isDouble (JS.round z).
Proof.
  destruct (decide (z = 0)) as [->|N]; [done|].
  rewrite round_nonzero by done.
  pose proof (roundMagnitude_pos (Z.abs z) ltac:(lia)) as P.
  destruct (Z.leb_spec (2 ^ 1024) (JS.roundMagnitude (Z.abs z))) as [O|O];
    [by case_match|].
  simpl. rewrite round_nonzero by lia.
  replace (Z.abs (Z.sgn z * JS.roundMagnitude (Z.abs z)))
    with (JS.roundMagnitude (Z.abs z)) by lia.
  rewrite roundMagnitude_idem by lia.
  rewrite (proj2 (Z.leb_gt _ _)) by done.
  f_equal. lia.
Qed.

Lemma round_mono x y : x ≤ y → JS.notBelow (JS.round x) (JS.round y).
Proof.
  intros H.
  destruct (decide (x = 0)) as [->|Nx], (decide (y = 0)) as [->|Ny];
    try rewrite (round_nonzero x) by done;
    try rewrite (round_nonzero y) by done;
    try (change (JS.round 0) with (JS.Fin 0)).
  - simpl. lia.
  - pose proof (roundMagnitude_pos (Z.abs y) ltac:(lia)).
    rewrite (proj2 (Z.ltb_ge _ _)) by lia.
    case_match; simpl; [done|lia].
  - pose proof (roundMagnitude_pos (Z.abs x) ltac:(lia)).
    rewrite (proj2 (Z.ltb_lt _ _)) by lia.
    case_match; simpl; [done|lia].
  - pose proof (roundMagnitude_pos (Z.abs x) ltac:(lia)) as Px.
    pose proof (roundMagnitude_pos (Z.abs y) ltac:(lia)) as Py.
    destruct (Z.ltb_spec x 0) as [Sx|Sx], (Z.ltb_spec y 0) as [Sy|Sy]; try lia.
    + pose proof (roundMagnitude_mono (Z.abs y) (Z.abs x) ltac:(lia) ltac:(lia)).
      destruct (Z.leb_spec (2 ^ 1024) (JS.roundMagnitude (Z.abs x))),
               (Z.leb_spec (2 ^ 1024) (JS.roundMagnitude (Z.abs y)));
        simpl; try done; try lia.
    + repeat case_match; simpl; try done; lia.
    + pose proof (roundMagnitude_mono (Z.abs x) (Z.abs y) ltac:(lia) ltac:(lia)).
      destruct (Z.leb_spec (2 ^ 1024) (JS.roundMagnitude (Z.abs x))),
               (Z.leb_spec (2 ^ 1024) (JS.roundMagnitude (Z.abs y)));
        simpl; try done; try lia.
Qed.

(** A sum with a count is a double and does not lie below the number
    the count was added to. *)
Lemma add_isDouble (n : JS.Num) (c : Z) :
  JS.isDouble n → JS.isDouble (JS.add n (JS.Fin c)).
Proof.
  destruct n as [| | | |a]; simpl; try done.
  - intros _. apply round_isDouble.
  - intros H. case_match; [done|]. apply round_isDouble.
Qed.

Lemma add_notBelow (n : JS.Num) (c : Z) :
  JS.isDouble n → 0 ≤ c → JS.notBelow n (JS.add n (JS.Fin c)).
Proof.
  destruct n as [| | | |a]; simpl; try done.
  - intros _ H. pose proof (round_mono 0 c H) as M.
    change (JS.round 0) with (JS.Fin 0) in M.
    destruct (JS.round c); simpl in *; done.
  - intros D H. destruct (Z.eqb_spec c 0); [simpl; lia|].
    pose proof (round_mono a (a + c) ltac:(lia)) as M. by rewrite D in M.
Qed.

Lemma notBelow_refl (n : JS.Num) : JS.notBelow n n.
Proof. destruct n; simpl; auto. lia. Qed.

Lemma notBelow_trans (a b c : JS.Num) :
  JS.notBelow a b → JS.notBelow b c → JS.notBelow a c.
Proof. destruct a, b, c; simpl; try done; lia. Qed.

End Numbers.

Section LastIndexOf.

Lemma lastIndexOf_from_absent (c : ascii) (s : string) (i acc : Z) :
  JS.includes c s = false → JS.lastIndexOf_from c s i acc = acc.
Proof.
  revert i acc; induction s as [|a s IH]; simpl; intros i acc H; [done|].
  apply orb_false_iff in H as [Ha Hs]. rewrite Ha. by apply IH.
Qed.

Lemma lastIndexOf_from_split (c : ascii) (p t : string) (i acc : Z) :
  JS.includes c t = false →
  JS.lastIndexOf_from c (p ++ String c t) i acc = i + JS.len p.
Proof.
  intros Ht. revert i acc; induction p as [|a p IH]; simpl; intros i acc.
  - rewrite Ascii.eqb_refl, lastIndexOf_from_absent by done.
    unfold JS.len; simpl; lia.
  - rewrite IH. unfold JS.len; simpl String.length. lia.
Qed.

Lemma lastIndexOf_absent (c : ascii) (s : string) :
  JS.includes c s = false → JS.lastIndexOf c s = -1.
Proof. apply lastIndexOf_from_absent. Qed.

Lemma lastIndexOf_split (c : ascii) (p t : string) :
  JS.includes c t = false → JS.lastIndexOf c (p ++ String c t) = JS.len p.
Proof. intros H. unfold JS.lastIndexOf. by rewrite lastIndexOf_from_split. Qed.

(** Slicing at or past the end gives the empty string. *)
Lemma slice_past_end (s : string) (start : Z) :
  JS.len s ≤ start → JS.slice s start = "".
Proof.
  intros H. unfold JS.slice, JS.len in *.
  destruct (Z.ltb_spec start 0); [lia|].
  rewrite Z.min_r by lia. rewrite Nat2Z.id. by apply drop_all.
Qed.

Lemma slice_split (p t : string) : JS.slice (p ++ t) (JS.len p) = t.
Proof.
  unfold JS.slice, JS.len. rewrite length_append.
  destruct (Z.ltb_spec (Z.of_nat (String.length p)) 0); [lia|].
  rewrite Z.min_l by lia. rewrite Nat2Z.id. apply drop_app_length.
Qed.

End LastIndexOf.

(** ** The extension of a file name *)

Section Extension.

Variable filename : string.
Hypothesis short : JS.len filename < 2 ^ 32.

Lemma getExtension_no_dot :
  JS.includes "." filename = false → getExtension filename = "".
Proof.
  intros H. unfold getExtension. rewrite lastIndexOf_absent by done.
  apply slice_past_end. unfold JS.to_uint32.
  change ((-1 - 1) mod 2 ^ 32 + 2) with (2 ^ 32). lia.
Qed.

Lemma getExtension_leading_dot (t : string) :
  JS.includes "." t = false → filename = String "." t →
  getExtension filename = "".
Proof.
  intros Ht E. unfold getExtension.
  pose proof (lastIndexOf_split "." "" t Ht) as L. simpl in L.
  pose proof short as B. rewrite E in B |- *. rewrite L.
  apply slice_past_end. unfold JS.to_uint32.
  change ((JS.len "" - 1) mod 2 ^ 32 + 2) with (2 ^ 32 + 1). lia.
Qed.

Lemma getExtension_inner_dot (p t : string) :
  p ≠ ""%string → JS.includes "." t = false →
  filename = (p ++ String "." t)%string → getExtension filename = t.
Proof.
  intros Hp Ht E. unfold getExtension.
  pose proof short as B. rewrite E in B |- *.
  rewrite lastIndexOf_split by done.
  assert (1 ≤ JS.len p).
  { destruct p; [done|]. unfold JS.len; simpl String.length; lia. }
  assert (JS.len p < 2 ^ 32).
  { revert B. unfold JS.len. rewrite length_append. lia. }
  unfold JS.to_uint32. rewrite Z.mod_small by lia.
  replace (JS.len p - 1 + 2) with (JS.len (p ++ ".")).
  - replace (p ++ String "." t)%string with ((p ++ ".") ++ t)%string.
    + apply slice_split.
    + by rewrite append_assoc.
  - unfold JS.len. rewrite length_append. simpl String.length. lia.
Qed.

(** The extension never contains a dot. *)
Lemma getExtension_dotfree : JS.includes "." (getExtension filename) = false.
Proof.
  destruct (JS.includes "." filename) eqn:H.
  - destruct (last_occurrence _ _ H) as (p & t & E & Ht).
    destruct p as [|a p].
    + by rewrite (getExtension_leading_dot t).
    + by rewrite (getExtension_inner_dot (String a p) t).
  - by rewrite getExtension_no_dot.
Qed.

End Extension.

(** ** The preview pass *)

Section Previews.

Implicit Types (p : string) (n m : JS.Num) (q : list FileQueueItem).

Lemma cursorAfter_incr k n : cursorAfter k (JS.incr n) = cursorAfter (S k) n.
Proof. unfold cursorAfter. by rewrite Nat.iter_succ_r. Qed.

Lemma recompute_length p n q : length (recomputePreviews p n q) = length q.
Proof.
  revert n; induction q as [|it q IH]; intros n; simpl; [done|].
  case_decide; simpl; by rewrite IH.
Qed.

(** A second pass overwrites what the first one wrote. *)
Lemma recompute_again p n m q :
  recomputePreviews p n (recomputePreviews p m q) = recomputePreviews p n q.
Proof.
  revert n m; induction q as [|it q IH]; intros n m; simpl; [done|].
  destruct (decide (stage it = Stage1)) as [E|E]; simpl.
  - rewrite decide_True by done. by rewrite IH.
  - rewrite decide_False by done. by rewrite IH.
Qed.

Lemma recompute_app p n q1 q2 :
  recomputePreviews p n (q1 ++ q2)%list
  = (recomputePreviews p n q1
     ++ recomputePreviews p (cursorAfter (length (stageView Stage1 q1)) n) q2)%list.
Proof.
  revert n; induction q1 as [|it q1 IH]; intros n; simpl; [done|].
  unfold stageView. rewrite filter_cons.
  destruct (decide (stage it = Stage1)); simpl; rewrite IH; [|done].
  by rewrite cursorAfter_incr.
Qed.

Lemma recompute_lookup p n q i it :
  q !! i = Some it →
  recomputePreviews p n q !! i
  = Some (if decide (stage it = Stage1)
          then with_previewName (Some (previewAt p (cursorAfter (rank q i) n) it)) it
          else it).
Proof.
  revert n i; induction q as [|x q IH]; intros n [|i] H; simplify_eq/=.
  - unfold rank; simpl. by case_decide.
  - unfold rank; simpl. unfold stageView. rewrite filter_cons.
    destruct (decide (stage x = Stage1)); simpl; rewrite (IH _ _ H); [|done].
    case_decide; [|done]. by rewrite cursorAfter_incr.
Qed.

Lemma recompute_previews p n q :
  map previewName (stageView Stage1 (recomputePreviews p n q))
  = imap (λ k it, Some (previewAt p (cursorAfter k n) it)) (stageView Stage1 q).
Proof.
  unfold stageView.
  revert n; induction q as [|it q IH]; intros n; simpl; [done|].
  rewrite !filter_cons.
  destruct (decide (stage it = Stage1)) as [E|E]; simpl.
  - rewrite filter_cons, decide_True by done. simpl. rewrite IH.
    f_equal. apply imap_ext. intros k x _. simpl.
    by rewrite cursorAfter_incr.
  - rewrite filter_cons, decide_False by done. apply IH.
Qed.

Lemma recompute_pointwise p n q :
  Forall2 (λ it it',
             it' = if decide (stage it = Stage1)
                   then with_previewName (previewName it') it else it)
          q (recomputePreviews p n q).
Proof.
  revert n; induction q as [|it q IH]; intros n; simpl; [constructor|].
  destruct (decide (stage it = Stage1)) as [E|E]; constructor; auto.
  - by rewrite decide_True.
  - by rewrite decide_False.
Qed.

Lemma recompute_no_stage1 p n q :
  stageView Stage1 q = [] → recomputePreviews p n q = q.
Proof.
  unfold stageView.
  revert n; induction q as [|it q IH]; intros n; simpl; [done|].
  rewrite filter_cons. destruct (decide (stage it = Stage1)); [done|].
  intros H. by rewrite IH.
Qed.

(** The pass commutes with any per-item update that leaves the stage
    test and the original name alone. *)
Lemma recompute_map p n q (f : FileQueueItem → FileQueueItem) :
  (∀ it, stage (f it) = Stage1 ↔ stage it = Stage1) →
  (∀ it, originalName (f it) = originalName it) →
  (∀ it v, f (with_previewName v it) = with_previewName v (f it)) →
  recomputePreviews p n (map f q) = map f (recomputePreviews p n q).
Proof.
  intros Hs Ho Hc.
  revert n; induction q as [|it q IH]; intros n; simpl; [done|].
  destruct (decide (stage it = Stage1)) as [E|E].
  - rewrite decide_True by by apply Hs. simpl. by rewrite IH, Ho, Hc.
  - rewrite decide_False by (by rewrite Hs). simpl. by rewrite IH.
Qed.

End Previews.

(** ** How the queue evolves *)

Section Evolution.

Implicit Types (q : list FileQueueItem) (s : State) (e : Event).

Lemma persists_refl it : persists it it.
Proof. unfold persists. repeat split; auto; lia. Qed.

Lemma persists_trans it1 it2 it3 :
  persists it1 it2 → persists it2 it3 → persists it1 it3.
Proof.
  unfold persists.
  intros (I1 & F1 & O1 & G1 & S1 & N1) (I2 & F2 & O2 & G2 & S2 & N2).
  repeat split; try congruence; try lia.
  intros H. rewrite N2, N1; auto.
  intros E. rewrite E in S1. destruct (stage it1); simpl in *; by try lia.
Qed.

Lemma Forall2_persists_refl q : Forall2 persists q q.
Proof. induction q; constructor; auto using persists_refl. Qed.

Lemma Forall2_persists_trans q1 q2 q3 :
  Forall2 persists q1 q2 → Forall2 persists q2 q3 → Forall2 persists q1 q3.
Proof.
  intros H; revert q3; induction H; intros q3 H3; inversion H3; subst;
    constructor; eauto using persists_trans.
Qed.

(** A per-item update that respects [persists] does so on the queue. *)
Lemma Forall2_persists_map q (f : FileQueueItem → FileQueueItem) :
  (∀ it, persists it (f it)) → Forall2 persists q (map f q).
Proof. intros H. induction q; simpl; constructor; auto. Qed.

Lemma Forall2_persists_filter (ids : list string) q q' :
  Forall2 persists q q' →
  Forall2 persists (filter (λ it, item_id it ∉ ids) q)
                   (filter (λ it, item_id it ∉ ids) q').
Proof.
  induction 1 as [|it it' q q' H _ IH]; [constructor|].
  rewrite !filter_cons. pose proof H as (I & _).
  destruct (decide (item_id it ∉ ids)) as [K|K].
  - rewrite decide_True by by rewrite I. by constructor.
  - rewrite decide_False by by rewrite I. done.
Qed.

Lemma filter_keep_all q : filter (λ it, item_id it ∉ []) q = q.
Proof.
  induction q as [|it q IH]; [done|].
  rewrite filter_cons, decide_True by apply not_elem_of_nil. by rewrite IH.
Qed.

Lemma filter_full {A} (P : A → Prop) `{∀ x, Decision (P x)} (l : list A) :
  length (filter P l) = length l → filter P l = l.
Proof.
  induction l as [|x l IH]; [done|].
  rewrite filter_cons. destruct (decide (P x)); simpl; intros E.
  - f_equal. apply IH. lia.
  - pose proof (length_filter P l). lia.
Qed.

Lemma evolves_append q olds news :
  Forall2 persists q olds → evolves [] q (olds ++ news).
Proof. intros H. exists olds, news. by rewrite filter_keep_all. Qed.

Lemma evolves_same q q' : Forall2 persists q q' → evolves [] q q'.
Proof.
  intros H. rewrite <- (app_nil_r q'). by apply evolves_append.
Qed.

Lemma evolves_remove (id : string) q :
  evolves [id] q (filter (λ it, item_id it ≠ id) q).
Proof.
  exists (filter (λ it, item_id it ≠ id) q), []. rewrite app_nil_r. split; [done|].
  erewrite (list_filter_iff (λ it, item_id it ∉ [id])).
  - apply Forall2_persists_refl.
  - intros it. simpl. by rewrite list_elem_of_singleton.
Qed.

Lemma evolves_trans (ids1 ids2 : list string) q1 q2 q3 :
  evolves ids1 q1 q2 → evolves ids2 q2 q3 → evolves (ids1 ++ ids2) q1 q3.
Proof.
  intros (o1 & n1 & -> & H1) (o2 & n2 & -> & H2).
  rewrite filter_app in H2.
  apply Forall2_app_inv_l in H2 as (o2a & o2b & Ha & Hb & ->).
  exists o2a, (o2b ++ n2)%list. split; [by rewrite app_assoc|].
  eapply Forall2_persists_trans; [|exact Ha].
  apply (Forall2_persists_filter ids2) in H1.
  rewrite list_filter_filter in H1.
  erewrite list_filter_iff; [exact H1|].
  intros it. simpl. rewrite elem_of_app. tauto.
Qed.

(** *** The handlers *)

Lemma persists_lock it :
  persists it (if decide (stage it = Stage1) then with_lock it else it).
Proof.
  case_decide as E; [|apply persists_refl].
  unfold persists; simpl. rewrite E; simpl. repeat split; auto; try lia. done.
Qed.

Lemma persists_advance it :
  persists it (if decide (stage it = Stage2) then with_stage Stage3 it else it).
Proof.
  case_decide as E; [|apply persists_refl].
  unfold persists; simpl. rewrite E; simpl. repeat split; auto; lia.
Qed.

Lemma persists_edit (id value : string) it :
  persists it (if decide (item_id it = id) then with_temperature value it else it).
Proof.
  case_decide as E; [|apply persists_refl].
  unfold persists; simpl. repeat split; auto; lia.
Qed.

Lemma processFiles_queue (ok : bool) random files s :
  queue (reply ok (processFiles random files s))
  = (queue s ++ filteredFiles random files s)%list.
Proof.
  unfold processFiles, filteredFiles.
  destruct (filter (λ f, isImageFile f) files) as [|f fs] eqn:E.
  - simpl length. simpl imap.
    assert ((if onlyFilter s
             then filter (λ f : FileQueueItem,
                    JS.endsWith (folderName f) (filterSuffix s)) []
             else []) = []) as -> by by destruct (onlyFilter s).
    simpl. destruct (0 <? length files)%nat; simpl; by rewrite app_nil_r.
  - simpl length at 1. cbv beta iota zeta. simpl Nat.eqb at 1. simpl andb at 1.
    cbv iota. by case_match.
Qed.

Lemma processFiles_config (ok : bool) random files s :
  let s' := reply ok (processFiles random files s) in
  prefix s' = prefix s ∧ startIndex s' = startIndex s
  ∧ filterSuffix s' = filterSuffix s ∧ onlyFilter s' = onlyFilter s.
Proof.
  unfold processFiles. simpl. repeat case_match; simpl; auto.
Qed.

Lemma moveToStage2_queue s :
  queue (reply true (moveToStage2 s))
  = map (λ it, if decide (stage it = Stage1) then with_lock it else it) (queue s).
Proof. done. Qed.

Lemma moveToStage3_queue s :
  queue (reply true (moveToStage3 s))
  = map (λ it, if decide (stage it = Stage2) then with_stage Stage3 it else it)
        (queue s).
Proof. unfold moveToStage3. by case_match. Qed.

Lemma moveToStage3_declined s :
  reply false (moveToStage3 s) = s
  ∨ reply false (moveToStage3 s) = reply true (moveToStage3 s).
Proof. unfold moveToStage3. case_match; simpl; auto. Qed.

Lemma handle_evolves e s :
  evolves (removedBy e) (queue s) (queue (handle e s)).
Proof.
  destruct e as [v|v|v|b|random files|[]|[]|id value|id]; simpl removedBy;
    try (apply evolves_same, Forall2_persists_refl).
  - unfold handle. rewrite processFiles_queue.
    apply evolves_append, Forall2_persists_refl.
  - unfold handle. rewrite moveToStage2_queue.
    apply evolves_same, Forall2_persists_map, persists_lock.
  - unfold handle. rewrite moveToStage3_queue.
    apply evolves_same, Forall2_persists_map, persists_advance.
  - unfold handle. destruct (moveToStage3_declined s) as [-> | ->].
    + apply evolves_same, Forall2_persists_refl.
    + rewrite moveToStage3_queue.
      apply evolves_same, Forall2_persists_map, persists_advance.
  - apply evolves_same, Forall2_persists_map, persists_edit.
  - apply evolves_remove.
Qed.

Lemma recompute_persists (p : string) (n : JS.Num) q :
  Forall2 persists q (recomputePreviews p n q).
Proof.
  eapply Forall2_impl; [apply recompute_pointwise|].
  intros it it' ->. case_decide; [|apply persists_refl].
  unfold persists; simpl. repeat split; auto; lia.
Qed.

Lemma rerender_persists s s' : Forall2 persists (queue s') (queue (rerender s s')).
Proof.
  unfold rerender. case_decide; [apply Forall2_persists_refl|].
  apply recompute_persists.
Qed.

Lemma step_evolves s e : evolves (removedBy e) (queue s) (queue (step s e)).
Proof.
  rewrite <- (app_nil_r (removedBy e)).
  eapply evolves_trans; [apply handle_evolves|].
  apply evolves_same, rerender_persists.
Qed.

Lemma run_evolves events s :
  evolves (removedIds events) (queue s) (queue (run s events)).
Proof.
  revert s; induction events as [|e events IH]; intros s.
  - apply evolves_same, Forall2_persists_refl.
  - unfold removedIds. simpl. eapply evolves_trans; [apply step_evolves|apply IH].
Qed.

(** *** The previews are up to date between events *)

Lemma previewEffect_settled s : settled (previewEffect s).
Proof. unfold settled, previewEffect. simpl. apply recompute_again. Qed.

Lemma settled_same s s' :
  prefix s' = prefix s → startIndex s' = startIndex s → queue s' = queue s →
  settled s → settled s'.
Proof. unfold settled. by intros -> -> ->. Qed.

Lemma settled_map s (f : FileQueueItem → FileQueueItem) :
  (∀ it, stage (f it) = Stage1 ↔ stage it = Stage1) →
  (∀ it, originalName (f it) = originalName it) →
  (∀ it v, f (with_previewName v it) = with_previewName v (f it)) →
  settled s → settled (setQueue (map f) s).
Proof.
  unfold settled. simpl. intros H1 H2 H3 H. by rewrite recompute_map, H.
Qed.

Lemma settled_advance s :
  settled s →
  settled (setQueue (map (λ it,
    if decide (stage it = Stage2) then with_stage Stage3 it else it)) s).
Proof.
  apply settled_map.
  - intros it. case_decide as E; [|done]. simpl. rewrite E. split; discriminate.
  - intros it. by case_decide.
  - intros it v. simpl. by case_decide.
Qed.

Lemma handle_settled s e :
  effectDeps s = effectDeps (handle e s) → settled s → settled (handle e s).
Proof.
  unfold effectDeps. intros D H.
  destruct e as [v|v|v|b|random files|[]|ok|id value|id].
  - simpl in *. injection D as E. apply (settled_same s); auto.
  - simpl in *. injection D as E. apply (settled_same s); auto.
  - by apply (settled_same s).
  - by apply (settled_same s).
  - unfold handle in *. destruct (processFiles_config true random files s) as (P & I & _).
    rewrite processFiles_queue in D.
    apply (settled_same s); auto. rewrite processFiles_queue.
    injection D as _ _ L. rewrite length_app in L.
    destruct (filteredFiles random files s); simpl in L; [by rewrite app_nil_r|lia].
  - unfold settled. simpl. apply recompute_no_stage1. unfold stageView.
    clear. induction (queue s) as [|it q IH]; [done|].
    simpl. rewrite filter_cons.
    destruct (decide (stage it = Stage1)); by rewrite decide_False.
  - done.
  - unfold handle, moveToStage3. destruct ok; case_match; simpl; auto;
      by apply settled_advance.
  - unfold handle, updateTemperature. apply settled_map; auto.
    + intros it. by case_decide.
    + intros it. by case_decide.
    + intros it w. simpl. by case_decide.
  - simpl in D. injection D as L. symmetry in L. apply filter_full in L.
    apply (settled_same s); auto.
Qed.

Lemma step_settled s e : settled s → settled (step s e).
Proof.
  intros H. unfold step, rerender. case_decide as D.
  - by apply handle_settled.
  - apply previewEffect_settled.
Qed.

Lemma run_settled events s : settled s → settled (run s events).
Proof.
  revert s; induction events as [|e events IH]; intros s H; [done|].
  simpl. by apply IH, step_settled.
Qed.

Lemma initial_settled : settled initial.
Proof. done. Qed.

End Evolution.

(** ** Sequence numbers as text *)

Section SequenceText.

Lemma pretty_N_char_not_dot (d : N) : pretty_N_char d ≠ "."%char.
Proof. unfold pretty_N_char. by repeat case_match. Qed.

Lemma pretty_N_go_dotfree (x : N) (s : string) :
  JS.includes "." (pretty_N_go x s) = JS.includes "." s.
Proof.
  revert s. induction (N.lt_wf_0 x) as [x _ IH]; intros s.
  assert (x = 0 ∨ 0 < x)%N as [->|?] by lia.
  - by rewrite pretty_N_go_0.
  - rewrite pretty_N_go_step by done. rewrite IH by by apply N.div_lt.
    simpl. destruct (Ascii.eqb_spec (pretty_N_char (x `mod` 10)) ".") as [E|_];
      [|done].
    by destruct (pretty_N_char_not_dot _ E).
Qed.

Lemma numeral_dotfree (n : Z) : JS.includes "." (JS.numeral n) = false.
Proof.
  unfold JS.numeral, pretty, pretty_Z. destruct n as [|x|x]; [done|..].
  - unfold pretty, pretty_positive, pretty, pretty_N. case_decide; [done|].
    by rewrite pretty_N_go_dotfree.
  - unfold pretty, pretty_positive, pretty, pretty_N. case_decide; [done|].
    rewrite includes_append, pretty_N_go_dotfree. done.
Qed.

(** The first digit of a positive number is not a zero. *)
Lemma pretty_N_go_head (x : N) (s : string) :
  (0 < x)%N → ∃ c t, pretty_N_go x s = String c t ∧ c ≠ "0"%char.
Proof.
  revert s. induction (N.lt_wf_0 x) as [x _ IH]; intros s Hx.
  rewrite pretty_N_go_step by done.
  destruct (N.eq_0_gt_0_cases (x `div` 10)) as [E|E].
  - rewrite E, pretty_N_go_0. eexists _, _. split; [done|].
    assert (x < 10)%N by (apply N.div_small_iff in E; lia).
    rewrite N.mod_small by done.
    intros Hc. unfold pretty_N_char in Hc.
    repeat case_match; try discriminate; lia.
  - apply IH; [|done]. by apply N.div_lt.
Qed.

Lemma numeral_head (n : Z) :
  n ≠ 0 → ∃ c t, JS.numeral n = String c t ∧ c ≠ "0"%char.
Proof.
  unfold JS.numeral, pretty, pretty_Z. destruct n as [|x|x]; [done|..]; intros _.
  - unfold pretty, pretty_positive, pretty, pretty_N. case_decide; [done|].
    apply pretty_N_go_head. lia.
  - eexists _, _. split; [done|]. done.
Qed.

Lemma stripZeros_replicate (k : nat) (s : string) :
  stripZeros (JS.replicate k "0" ++ s) = stripZeros s.
Proof. induction k as [|k IH]; simpl; [done|]. apply IH. Qed.

Lemma stripZeros_numeral (n : Z) :
  stripZeros (JS.numeral n) = if decide (n = 0) then "" else JS.numeral n.
Proof.
  case_decide as E; [by subst|].
  destruct (numeral_head n E) as (c & t & -> & Hc). simpl.
  by destruct (Ascii.eqb_spec c "0").
Qed.

Lemma padStart_numeral_inj (n m : Z) :
  JS.padStart 3 "0" (JS.numeral n) = JS.padStart 3 "0" (JS.numeral m) → n = m.
Proof.
  unfold JS.padStart. intros E. apply (f_equal stripZeros) in E.
  rewrite !stripZeros_replicate, !stripZeros_numeral in E.
  destruct (decide (n = 0)) as [->|Hn], (decide (m = 0)) as [->|Hm]; [done|..].
  - destruct (numeral_head m Hm) as (c & t & R & _). by rewrite R in E.
  - destruct (numeral_head n Hn) as (c & t & R & _). by rewrite R in E.
  - by apply pretty_Z_inj.
Qed.

Lemma includes_replicate_zero (k : nat) : JS.includes "." (JS.replicate k "0") = false.
Proof. induction k; simpl; auto. Qed.

Lemma padStart_numeral_dotfree (n : Z) :
  JS.includes "." (JS.padStart 3 "0" (JS.numeral n)) = false.
Proof.
  unfold JS.padStart.
  by rewrite includes_append, includes_replicate_zero, numeral_dotfree.
Qed.

Lemma padStart_toString_inj (n m : Z) :
  JS.exact n → JS.exact m →
  JS.padStart 3 "0" (JS.toString (JS.Fin n))
  = JS.padStart 3 "0" (JS.toString (JS.Fin m)) → n = m.
Proof.
  intros Hn Hm. rewrite !toString_safe by done. apply padStart_numeral_inj.
Qed.

Lemma padStart_dotfree (n : Z) :
  JS.exact n → JS.includes "." (JS.padStart 3 "0" (JS.toString (JS.Fin n))) = false.
Proof. intros Hn. rewrite toString_safe by done. apply padStart_numeral_dotfree. Qed.

(** Within the safe integers, the name determines the sequence number. *)
Lemma previewAt_inj (p : string) (n m : Z) (a b : FileQueueItem) :
  JS.exact n → JS.exact m →
  previewAt p (JS.Fin n) a = previewAt p (JS.Fin m) b → n = m.
Proof.
  unfold previewAt. intros Hn Hm E. apply append_inv_head in E.
  apply padStart_toString_inj; [done..|].
  by destruct (first_occurrence_unique "." _ _ _ _
                 (padStart_dotfree n Hn) (padStart_dotfree m Hm) E).
Qed.

End SequenceText.

(** ** Positions in the queue *)

Section Positions.

Implicit Types (q : list FileQueueItem) (s : State).

Lemma rank_succ q i a :
  q !! i = Some a →
  rank q (S i) = (rank q i + if decide (stage a = Stage1) then 1 else 0)%nat.
Proof.
  intros H. unfold rank, stageView. rewrite (take_S_r _ _ _ H), filter_app, length_app.
  f_equal. rewrite filter_cons. by case_decide.
Qed.

Lemma rank_mono q i j : (i ≤ j)%nat → (rank q i ≤ rank q j)%nat.
Proof.
  induction 1 as [|j _ IH]; [done|].
  destruct (q !! j) as [a|] eqn:E.
  - rewrite (rank_succ _ _ _ E). lia.
  - apply lookup_ge_None in E. unfold rank in *.
    rewrite (take_ge q (S j)) by lia. by rewrite (take_ge q j) in IH by lia.
Qed.

Lemma rank_lt q i j a :
  (i < j)%nat → q !! i = Some a → stage a = Stage1 → (rank q i < rank q j)%nat.
Proof.
  intros L H E. pose proof (rank_mono q (S i) j L) as M.
  rewrite (rank_succ _ _ _ H), decide_True in M by done. lia.
Qed.

(** In a settled state a Stage 1 item carries the preview of its rank. *)
Lemma settled_preview s i a :
  settled s → queue s !! i = Some a → stage a = Stage1 →
  previewName a
  = Some (previewAt (prefix s) (cursorAfter (rank (queue s) i) (startIndex s)) a).
Proof.
  intros Hs H E. pose proof (recompute_lookup (prefix s) (startIndex s) _ _ _ H) as L.
  rewrite Hs, H, decide_True in L by done.
  injection L as L. by rewrite L at 1.
Qed.

Lemma rank_le_count q i : (rank q i ≤ length (stageView Stage1 q))%nat.
Proof.
  unfold rank. rewrite <- (take_drop i q) at 2.
  unfold stageView. rewrite filter_app, length_app. lia.
Qed.

(** The same for an integer start index with room for the Stage 1
    items. *)
Lemma settled_preview_exact s i a (z : Z) :
  settled s → queue s !! i = Some a → stage a = Stage1 →
  startIndex s = JS.Fin z → - JS.exactLimit ≤ z →
  z + Z.of_nat (length (stageView Stage1 (queue s))) ≤ JS.exactLimit →
  previewName a
  = Some (previewAt (prefix s) (JS.Fin (z + Z.of_nat (rank (queue s) i))) a).
Proof.
  intros Hs H E Hz Hl Hu. rewrite (settled_preview s i a Hs H E), Hz.
  pose proof (rank_le_count (queue s) i).
  by rewrite cursorAfter_safe by lia.
Qed.

(** The item at every position after a confirmed [moveToStage2]. *)
Lemma commit_lookup s i a :
  queue s !! i = Some a →
  queue (step s (ClickMoveToStage2 true)) !! i
  = Some (if decide (stage a = Stage1) then with_lock a else a).
Proof.
  intros H.
  assert (queue (handle (ClickMoveToStage2 true) s) !! i
          = Some (if decide (stage a = Stage1) then with_lock a else a)) as L.
  { unfold handle. rewrite moveToStage2_queue, list_lookup_fmap, H. reflexivity. }
  unfold step, rerender. destruct (decide (effectDeps s = _)); [exact L|].
  unfold previewEffect. simpl queue at 1.
  rewrite (recompute_lookup _ _ _ _ _ L).
  rewrite decide_False; [done|]. case_decide; [done|]. done.
Qed.

End Positions.

(** ** The archive *)

Section Archive.

Lemma fold_addItem (items : list FileQueueItem) (zip : Zip) (csv : string) :
  fold_left addItem items (zip, csv)
  = ((zip ++ map (λ it, (default "" (newName it), FileData (file it)))
                 (filter (λ it, JS.truthy (newName it)) items))%list,
     csv ++ joinRows
              (map (λ it, csvRow (originalName it) (default "" (newName it))
                                 (folderName it) (safeTemp it))
                   (filter (λ it, JS.truthy (newName it)) items))).
Proof.
  revert zip csv; induction items as [|it items IH]; intros zip csv; simpl.
  - by rewrite app_nil_r, append_nil_r.
  - rewrite filter_cons. destruct (JS.truthy (newName it)) eqn:E.
    + rewrite decide_True by done. rewrite IH. unfold zip_file. simpl.
      by rewrite <- app_assoc, append_assoc.
    + rewrite decide_False by (simpl; tauto). by rewrite IH.
Qed.

Lemma generateZipPackage_eq (items : list FileQueueItem) :
  generateZipPackage items
  = (map (λ it, (default "" (newName it), FileData (file it)))
         (filter (λ it, JS.truthy (newName it)) items)
     ++ [("data_summary.csv",
          TextData (csvHeader
                    ++ joinRows
                         (map (λ it, csvRow (originalName it)
                                            (default "" (newName it))
                                            (folderName it) (safeTemp it))
                              (filter (λ it, JS.truthy (newName it)) items))))])%list.
Proof. unfold generateZipPackage. by rewrite fold_addItem. Qed.

End Archive.

(** ** Suffix test *)

Section Suffix.

Local Open Scope nat_scope.

Lemma drop_split (n : nat) (s : string) : ∃ p, s = (p ++ JS.drop n s)%string.
Proof.
  revert s; induction n as [|n IH]; intros s; [by exists ""%string|].
  destruct s as [|a s]; [by exists ""%string|].
  destruct (IH s) as [p E]. exists (String a p). simpl. by rewrite <- E.
Qed.

Lemma endsWith_spec (s suffix : string) :
  JS.endsWith s suffix = true ↔ ∃ p, s = (p ++ suffix)%string.
Proof.
  unfold JS.endsWith. split.
  - destruct (Nat.leb_spec (String.length suffix) (String.length s)); [|done].
    intros E%String.eqb_eq.
    destruct (drop_split (String.length s - String.length suffix) s) as [p Hp].
    exists p. by rewrite <- E.
  - intros [p ->]. rewrite length_append.
    destruct (Nat.leb_spec (String.length suffix)
                (String.length p + String.length suffix)); [|lia].
    replace (String.length p + String.length suffix - String.length suffix)
      with (String.length p) by lia.
    rewrite drop_app_length. apply String.eqb_refl.
Qed.

End Suffix.

(** ** Ingestion *)

Section Ingestion.

Implicit Types (s : State) (files : list File) (random : nat → string).

Lemma newItems_files random (l : list File) :
  map file (imap (λ k f, newItem (random k) f) l) = l.
Proof.
  revert random; induction l as [|f l IH]; intros random; [done|].
  rewrite imap_cons. simpl. f_equal. apply (IH (random ∘ S)).
Qed.

Lemma newItems_filtered_files random (suffix : string) (l : list File) :
  map file (filter (λ it, JS.endsWith (folderName it) suffix)
                   (imap (λ k f, newItem (random k) f) l))
  = filter (λ f, JS.endsWith (folderNameOf f) suffix) l.
Proof.
  revert random; induction l as [|f l IH]; intros random; [done|].
  rewrite imap_cons, !filter_cons. simpl folderName.
  specialize (IH (random ∘ S)).
  destruct (decide (JS.endsWith (folderNameOf f) suffix)); simpl;
    by rewrite <- IH.
Qed.

Lemma newItems_ids random (l : list File) :
  map item_id (imap (λ k f, newItem (random k) f) l) = imap (λ k _, random k) l.
Proof.
  revert random; induction l as [|f l IH]; intros random; [done|].
  rewrite !imap_cons. simpl. f_equal. apply (IH (random ∘ S)).
Qed.

(** The files of the appended items: the image files that pass the
    folder filter, in the order of the input. *)
Lemma filteredFiles_files random files s :
  map file (filteredFiles random files s)
  = filter (λ f, isImageFile f
                 ∧ (onlyFilter s = true
                    → JS.endsWith (folderNameOf f) (filterSuffix s) = true))
           files.
Proof.
  unfold filteredFiles. destruct (onlyFilter s).
  - rewrite newItems_filtered_files, list_filter_filter.
    apply list_filter_iff. intros f. simpl.
    destruct (JS.endsWith (folderNameOf f) (filterSuffix s)); simpl; intuition congruence.
  - rewrite newItems_files. apply list_filter_iff. intros f. simpl.
    intuition congruence.
Qed.

Lemma filteredFiles_fresh random files s :
  Forall (λ it, stage it = Stage1 ∧ originalName it = name (file it)
                ∧ folderName it = folderNameOf (file it)
                ∧ temperature it = None ∧ newName it = None)
         (filteredFiles random files s).
Proof.
  assert (∀ l, Forall (λ it, stage it = Stage1 ∧ originalName it = name (file it)
                ∧ folderName it = folderNameOf (file it)
                ∧ temperature it = None ∧ newName it = None)
                (imap (λ k f, newItem (random k) f) l)) as H.
  { intros l. generalize random. induction l as [|f l IH]; intros g; [constructor|].
    rewrite imap_cons. constructor; [done|]. apply (IH (g ∘ S)). }
  unfold filteredFiles. destruct (onlyFilter s); [|apply H].
  apply Forall_forall. intros it [_ I]%list_elem_of_filter.
  revert it I. apply Forall_forall, H.
Qed.

Lemma filteredFiles_ids random files s :
  map item_id (filteredFiles random files s)
  `sublist_of` drawnBy (SelectFiles random files).
Proof.
  unfold filteredFiles, drawnBy. rewrite <- newItems_ids.
  destruct (onlyFilter s); [|done].
  generalize (imap (λ k f, newItem (random k) f) (filter (λ f, isImageFile f) files)).
  intros l. induction l as [|it l IH]; [done|].
  rewrite filter_cons. case_decide; simpl; by constructor.
Qed.

Lemma preview_only_files (l k : list FileQueueItem) :
  Forall2 (λ it it', it' = with_previewName (previewName it') it) l k →
  map file k = map file l.
Proof.
  induction 1 as [|it it' l k H _ IH]; [done|].
  simpl. rewrite IH. f_equal. by rewrite H.
Qed.

(** The queue after a batch: the earlier items, then the appended ones,
    each possibly with a fresh preview. *)
Lemma select_step random files s :
  ∃ olds news,
    queue (step s (SelectFiles random files)) = (olds ++ news)%list
    ∧ Forall2 persists (queue s) olds
    ∧ Forall2 (λ it it', it' = with_previewName (previewName it') it)
              (filteredFiles random files s) news.
Proof.
  assert (∀ it : FileQueueItem, it = with_previewName (previewName it) it) as eta
    by by intros [].
  unfold step, rerender, handle. case_decide.
  - rewrite processFiles_queue. eexists _, _. split; [done|].
    split; [apply Forall2_persists_refl|].
    apply Forall_Forall2_diag, Forall_forall. auto.
  - unfold previewEffect. simpl queue. rewrite processFiles_queue, recompute_app.
    eexists _, _. split; [done|]. split; [apply recompute_persists|].
    eapply Forall2_impl; [apply recompute_pointwise|].
    intros it it' E. simpl in E. case_decide; [done|]. rewrite E. apply eta.
Qed.

End Ingestion.

(** ** Identifiers *)

Section Identifiers.

Implicit Types (q : list FileQueueItem) (s : State) (e : Event).

Lemma sublist_map {A B} (f : A → B) (l k : list A) :
  l `sublist_of` k → map f l `sublist_of` map f k.
Proof. induction 1; simpl; by constructor. Qed.

Lemma recompute_ids (p : string) (n : JS.Num) q :
  map item_id (recomputePreviews p n q) = map item_id q.
Proof.
  revert n; induction q as [|it q IH]; intros n; simpl; [done|].
  case_decide; simpl; by rewrite IH.
Qed.

Lemma map_ids_same q (f : FileQueueItem → FileQueueItem) :
  (∀ it, item_id (f it) = item_id it) → map item_id (map f q) = map item_id q.
Proof. intros H. induction q; simpl; by rewrite ?H, ?IHq. Qed.

Lemma handle_ids s e :
  map item_id (queue (handle e s))
  `sublist_of` (map item_id (queue s) ++ drawnBy e)%list.
Proof.
  destruct e as [v|v|v|b|random files|[]|ok|id value|id];
    try (simpl; by rewrite app_nil_r).
  - unfold handle. rewrite processFiles_queue, map_app.
    apply sublist_app; [done|apply filteredFiles_ids].
  - unfold handle. rewrite moveToStage2_queue. simpl drawnBy. rewrite app_nil_r.
    rewrite map_ids_same; [done|]. intros it. by case_decide.
  - unfold handle, moveToStage3. simpl drawnBy. rewrite app_nil_r.
    destruct ok; case_match; simpl; try done;
      (rewrite map_ids_same; [done|]; intros it; by case_decide).
  - unfold handle, updateTemperature. simpl. rewrite app_nil_r.
    rewrite map_ids_same; [done|]. intros it. by case_decide.
  - simpl. rewrite app_nil_r. apply sublist_map, sublist_filter.
Qed.

Lemma step_ids s e :
  map item_id (queue (step s e))
  `sublist_of` (map item_id (queue s) ++ drawnBy e)%list.
Proof.
  unfold step, rerender. case_decide; [apply handle_ids|].
  unfold previewEffect. simpl queue. rewrite recompute_ids. apply handle_ids.
Qed.

Lemma run_ids events s :
  map item_id (queue (run s events))
  `sublist_of` (map item_id (queue s) ++ drawnIds events)%list.
Proof.
  revert s; induction events as [|e events IH]; intros s.
  - simpl. by rewrite app_nil_r.
  - simpl run. etrans; [apply IH|]. unfold drawnIds. simpl.
    rewrite app_assoc. apply sublist_app; [apply step_ids|done].
Qed.

End Identifiers.

(** * The claims *)

(** C3. The preview pass is a function of the prefix, the start index and
    the queue; running it a second time changes nothing. It walks the
    Stage 1 items in queue order with a cursor that starts at the start
    index and is incremented after each of them: the [k]-th Stage 1 item
    receives the composed name [prefix + padStart3(cursor) + "." +
    extension] for the cursor after [k] increments. Every other item is
    left as it is, a Stage 1 item changes in its [previewName] only, and
    the stored configuration (in particular [startIndex]) is not written.
    For an integer start index [z] with [z + k] not above [2^53], the
    cursor after [k] increments is [z + k], printed as its decimal
    numeral. *)
Theorem C3_preview_pass_idempotent (p : string) (n : JS.Num) (q : list FileQueueItem) :
  recomputePreviews p n (recomputePreviews p n q) = recomputePreviews p n q
  ∧ map previewName (stageView Stage1 (recomputePreviews p n q))
    = imap (λ k it, Some (p ++ JS.padStart 3 "0" (JS.toString (cursorAfter k n))
                            ++ "." ++ getExtension (originalName it)))
           (stageView Stage1 q)
  ∧ Forall2 (λ it it',
       it' = if decide (stage it = Stage1)
             then with_previewName (previewName it') it else it)
     q (recomputePreviews p n q)
  ∧ (∀ s : State,
       previewEffect (previewEffect s) = previewEffect s
       ∧ queue (previewEffect s) = recomputePreviews (prefix s) (startIndex s) (queue s)
       ∧ prefix (previewEffect s) = prefix s
       ∧ startIndex (previewEffect s) = startIndex s
       ∧ filterSuffix (previewEffect s) = filterSuffix s
       ∧ onlyFilter (previewEffect s) = onlyFilter s)
  ∧ (∀ (z : Z) (k : nat),
       - JS.exactLimit ≤ z → z + Z.of_nat k ≤ JS.exactLimit →
       cursorAfter k (JS.Fin z) = JS.Fin (z + Z.of_nat k)
       ∧ JS.toString (cursorAfter k (JS.Fin z)) = JS.numeral (z + Z.of_nat k))
  ∧ JS.padStart 3 "0" (JS.toString (JS.Fin 7)) = "007"
  ∧ JS.padStart 3 "0" (JS.toString (JS.Fin 42)) = "042"
  ∧ JS.padStart 3 "0" (JS.toString (JS.Fin 1234)) = "1234".
Proof.
  split; [apply recompute_again|].
  split; [apply recompute_previews|].
  split; [apply recompute_pointwise|].
  split; [|split; [|by vm_compute]].
  - intros s. split; [|by repeat split].
    unfold previewEffect, setQueue. simpl. by rewrite recompute_again.
  - intros z k Hl Hu. rewrite cursorAfter_safe by done. split; [done|].
    apply toString_safe. unfold JS.exact. lia.
Qed.

Lemma C3_preview_pass_idempotent_witness :
  cursorAfter 3 (JS.Fin 5) = JS.Fin 8
  ∧ JS.toString (cursorAfter 3 (JS.Fin 5)) = "8".
Proof.
  exact (proj1 (proj2 (proj2 (proj2 (proj2
           (C3_preview_pass_idempotent "" JS.NaN [])))))
         5 3%nat ltac:(vm_compute; discriminate) ltac:(vm_compute; discriminate)).
Defined.




(** C1 (amended). A confirmed [moveToStage2] gives every Stage 1 item the
    name [newName := previewName], puts it at Stage 2, leaves every other
    item as it is, and sets [startIndex] to the sum [startIndex + count]
    of the language, [count] being the number of Stage 1 items. When the
    start index is an integer [z], not below [-2^53], with [z + count]
    not above [2^53], the new start index is exactly [z + count], and in
    a state reached from the initial one the name locked for the Stage 1
    item at position [i] is the composed name for the number
    [z + rank i]. With start index 5 and prefix "01-", committing three
    files gives 01-005, 01-006, 01-007 with each file's extension, and
    committing two more files afterwards gives 01-008 and 01-009. *)
Theorem C1_moveToStage2_continues_sequence :
  (∀ s : State,
     let s' := step s (ClickMoveToStage2 true) in
     Forall2 (λ it it',
        if decide (stage it = Stage1)
        then newName it' = previewName it ∧ stage it' = Stage2
             ∧ item_id it' = item_id it ∧ file it' = file it
             ∧ originalName it' = originalName it
             ∧ folderName it' = folderName it
        else it' = it)
       (queue s) (queue s')
     ∧ startIndex s'
       = JS.add (startIndex s)
                (JS.Fin (Z.of_nat (length (stageView Stage1 (queue s)))))
     ∧ prefix s' = prefix s)
  ∧ (∀ (s : State) (z : Z),
       startIndex s = JS.Fin z → - JS.exactLimit ≤ z →
       z + Z.of_nat (length (stageView Stage1 (queue s))) ≤ JS.exactLimit →
       startIndex (step s (ClickMoveToStage2 true))
       = JS.Fin (z + Z.of_nat (length (stageView Stage1 (queue s)))))
  ∧ (∀ (events : list Event) (z : Z) (i : nat) (a : FileQueueItem),
       let s := run initial events in
       startIndex s = JS.Fin z → - JS.exactLimit ≤ z →
       z + Z.of_nat (length (stageView Stage1 (queue s))) ≤ JS.exactLimit →
       queue s !! i = Some a → stage a = Stage1 →
       ∃ a', queue (step s (ClickMoveToStage2 true)) !! i = Some a'
             ∧ stage a' = Stage2
             ∧ newName a'
               = Some (prefix s
                       ++ JS.padStart 3 "0"
                            (JS.numeral (z + Z.of_nat (rank (queue s) i)))
                       ++ "." ++ getExtension (originalName a)))
  ∧ (let s1 := run initial [ChangeStartIndex (JS.Fin 5);
                            SelectFiles (counting 0) batchA;
                            ClickMoveToStage2 true] in
     let s2 := run s1 [SelectFiles (counting 10) batchB; ClickMoveToStage2 true] in
     map newName (queue s1)
       = [Some "01-005.jpg"; Some "01-006.png"; Some "01-007.webp"]
     ∧ startIndex s1 = JS.Fin 8
     ∧ map newName (queue s2)
       = [Some "01-005.jpg"; Some "01-006.png"; Some "01-007.webp";
          Some "01-008.jpeg"; Some "01-009.JPG"]
     ∧ startIndex s2 = JS.Fin 10).
Proof.
  assert (∀ s, startIndex (step s (ClickMoveToStage2 true))
               = JS.add (startIndex s)
                   (JS.Fin (Z.of_nat (length (stageView Stage1 (queue s))))))
    as cursor.
  { intros s. unfold step, rerender. by case_decide. }
  split; [|split; [|split]].
  - intros s s'. split; [|split].
    + apply Forall2_same_length_lookup_2.
      * unfold s', step, rerender, previewEffect. case_decide; simpl;
          by rewrite ?recompute_length, length_map.
      * intros i it it' H H'. unfold s' in H'.
        rewrite (commit_lookup _ _ _ H) in H'. injection H' as <-.
        by case_decide.
    + apply cursor.
    + unfold s', step, rerender. by case_decide.
  - intros s z Hz Hl Hu. rewrite cursor, Hz. apply add_safe.
    unfold JS.exact. lia.
  - intros events z i a s Hz Hl Hu H E. eexists. split; [by apply commit_lookup|].
    rewrite decide_True by done. split; [done|]. simpl.
    rewrite (settled_preview_exact s i a z); try done;
      [|apply run_settled, initial_settled].
    unfold previewAt. rewrite toString_safe; [done|].
    pose proof (rank_le_count (queue s) i). unfold JS.exact. lia.
  - by vm_compute.
Qed.

Lemma C1_moveToStage2_continues_sequence_witness :
  let s := run initial [ChangeStartIndex (JS.Fin 5);
                        SelectFiles (counting 0) batchA] in
  ∃ a', queue (step s (ClickMoveToStage2 true)) !! 1%nat = Some a'
        ∧ stage a' = Stage2
        ∧ newName a' = Some "01-006.png".
Proof.
  intros s.
  assert (queue s !! 1%nat
          = Some (mkItem "1" (photo "siteA-1" "b.png") "b.png" "siteA-1" Stage1
                         idle None None (Some "01-006.png"))) as H
    by (vm_compute; reflexivity).
  destruct (proj1 (proj2 (proj2 C1_moveToStage2_continues_sequence))
              [ChangeStartIndex (JS.Fin 5); SelectFiles (counting 0) batchA]
              5 1%nat _ eq_refl
              ltac:(vm_compute; discriminate) ltac:(vm_compute; discriminate)
              H eq_refl)
    as (a' & L & G & N).
  exists a'. split; [exact L|]. split; [exact G|].
  rewrite N. vm_compute. reflexivity.
Defined.

(** C1 as stated fails in both readings. The start index need not be an
    integer: after the Start # field was emptied it is [NaN] and stays
    [NaN] (first part). And an integer start index need not advance by
    the count: from [2^53], committing three files makes it [2^53 + 4]
    (second part). *)
Lemma C1_cursor_not_advanced_counterexample :
  ¬ (∀ events : list Event,
       let s := run initial events in
       ∃ z : Z,
         startIndex s = JS.Fin z
         ∧ startIndex (step s (ClickMoveToStage2 true))
           = JS.Fin (z + Z.of_nat (length (stageView Stage1 (queue s)))))
  ∧ ¬ (∀ (events : list Event) (z : Z),
         let s := run initial events in
         startIndex s = JS.Fin z →
         startIndex (step s (ClickMoveToStage2 true))
         = JS.Fin (z + Z.of_nat (length (stageView Stage1 (queue s))))).
Proof.
  split; intros H.
  - destruct (H [ChangeStartIndex JS.NaN; SelectFiles (counting 0) batchC])
      as (z & E & _).
    vm_compute in E. discriminate.
  - specialize (H [ChangeStartIndex (JS.Fin (2 ^ 53));
                   SelectFiles (counting 0) batchA] (2 ^ 53) eq_refl).
    vm_compute in H. discriminate.
Qed.

(** What the two runs give: every file is named with the same number. *)
Example names_after_emptied_start_index :
  let s := run initial [ChangeStartIndex JS.NaN; SelectFiles (counting 0) batchC;
                        ClickMoveToStage2 true;
                        SelectFiles (counting 10) batchB; ClickMoveToStage2 true] in
  map newName (queue s)
  = [Some "01-NaN.jpg"; Some "01-NaN.jpg"; Some "01-NaN.jpeg"; Some "01-NaN.JPG"]
  ∧ startIndex s = JS.NaN.
Proof. by vm_compute. Qed.

Example names_at_the_exact_limit :
  let s := run initial [ChangeStartIndex (JS.Fin (2 ^ 53));
                        SelectFiles (counting 0) batchC;
                        ClickMoveToStage2 true] in
  map newName (queue s)
  = [Some "01-9007199254740992.jpg"; Some "01-9007199254740992.jpg"]
  ∧ startIndex s = JS.Fin (2 ^ 53 + 2).
Proof. by vm_compute. Qed.

(** C2. A locked name stays. After any sequence of events from any state,
    the queue begins with later states of exactly those earlier items whose
    identifier was not passed to [removeItem], in their order, and each of
    them that had left Stage 1 has the same [newName] and is still past
    Stage 1. For an event other than a removal the item stays at its
    position. The preview pass returns every item past Stage 1 as it
    is. *)
Theorem C2_locked_name_is_frozen :
  (∀ (events : list Event) (s : State),
     ∃ olds news,
       queue (run s events) = (olds ++ news)%list
       ∧ Forall2 (λ it it',
            item_id it' = item_id it
            ∧ (stage it ≠ Stage1 → newName it' = newName it ∧ stage it' ≠ Stage1))
           (filter (λ it, item_id it ∉ removedIds events) (queue s)) olds)
  ∧ (∀ (e : Event) (s : State) (i : nat) (it : FileQueueItem),
       removedBy e = [] → queue s !! i = Some it → stage it ≠ Stage1 →
       ∃ it', queue (step s e) !! i = Some it'
              ∧ newName it' = newName it ∧ stage it' ≠ Stage1)
  ∧ (∀ (p : string) (n : JS.Num) (q : list FileQueueItem),
       Forall2 (λ it it', stage it ≠ Stage1 → it' = it) q (recomputePreviews p n q)).
Proof.
  assert (∀ it it', persists it it' →
            item_id it' = item_id it
            ∧ (stage it ≠ Stage1 → newName it' = newName it ∧ stage it' ≠ Stage1))
    as frozen.
  { intros it it' (I & _ & _ & _ & S & N). split; [done|]. intros H.
    split; [auto|]. intros E. rewrite E in S. destruct (stage it); simpl in S; by try lia. }
  split; [|split].
  - intros events s. destruct (run_evolves events s) as (olds & news & E & H).
    exists olds, news. split; [done|]. eapply Forall2_impl; [exact H|]. done.
  - intros e s i it R H G.
    destruct (step_evolves s e) as (olds & news & E & F). rewrite R in F.
    rewrite filter_keep_all in F.
    destruct (Forall2_lookup_l _ _ _ _ _ F H) as (it' & L & P).
    exists it'. rewrite E, (lookup_app_l_Some _ _ _ _ L).
    split; [done|]. by apply frozen.
  - intros p n q. eapply Forall2_impl; [apply recompute_pointwise|].
    intros it it' E G. simpl in E. by rewrite decide_False in E.
Qed.

Lemma C2_locked_name_is_frozen_witness :
  let s := run initial [SelectFiles (counting 0) batchA; ClickMoveToStage2 true] in
  ∃ it', queue (step s (ChangePrefix "zz-")) !! 0%nat = Some it'
         ∧ newName it' = Some "01-001.jpg" ∧ stage it' ≠ Stage1.
Proof.
  intros s.
  assert (queue s !! 0%nat
          = Some (mkItem "0" (photo "siteA-1" "a.jpg") "a.jpg" "siteA-1" Stage2
                         idle None (Some "01-001.jpg") (Some "01-001.jpg"))) as H
    by (vm_compute; reflexivity).
  destruct (proj1 (proj2 C2_locked_name_is_frozen)
              (ChangePrefix "zz-") s 0%nat _ eq_refl H ltac:(discriminate))
    as (it' & L & N & G).
  exists it'. split; [exact L|]. split; [exact N|exact G].
Defined.

(** C10 (amended). In a state reached from the initial one whose start
    index is an integer [z], not below [-2^53], with [z] plus the number
    of Stage 1 items not above [2^53], two different Stage 1 items are
    locked under different names by one [moveToStage2]: their sequence
    numbers differ, the padded number contains no dot, and so the text in
    front of the first dot after the prefix tells the numbers apart. The
    extension of a name shorter than 2^32 characters contains no dot. *)
Theorem C10_names_distinct_within_commit :
  (∀ (events : list Event) (z : Z) (i j : nat) (a b : FileQueueItem),
     let s := run initial events in
     startIndex s = JS.Fin z → - JS.exactLimit ≤ z →
     z + Z.of_nat (length (stageView Stage1 (queue s))) ≤ JS.exactLimit →
     i ≠ j → queue s !! i = Some a → queue s !! j = Some b →
     stage a = Stage1 → stage b = Stage1 →
     ∃ a' b',
       queue (step s (ClickMoveToStage2 true)) !! i = Some a'
       ∧ queue (step s (ClickMoveToStage2 true)) !! j = Some b'
       ∧ stage a' = Stage2 ∧ stage b' = Stage2
       ∧ is_Some (newName a') ∧ is_Some (newName b')
       ∧ newName a' ≠ newName b')
  ∧ (∀ (p : string) (n m : Z) (e1 e2 : string),
       JS.exact n → JS.exact m →
       p ++ JS.padStart 3 "0" (JS.toString (JS.Fin n)) ++ "." ++ e1
       = p ++ JS.padStart 3 "0" (JS.toString (JS.Fin m)) ++ "." ++ e2 → n = m)
  ∧ (∀ filename : string,
       JS.len filename < 2 ^ 32 → JS.includes "." (getExtension filename) = false).
Proof.
  split; [|split].
  - intros events z i j a b s Hz Hl Hu Hij Ha Hb Ea Eb.
    assert (settled s) as Hs by apply run_settled, initial_settled.
    exists (with_lock a), (with_lock b).
    rewrite (commit_lookup _ _ _ Ha), (commit_lookup _ _ _ Hb), !decide_True by done.
    pose proof (settled_preview_exact s i a z Hs Ha Ea Hz Hl Hu) as Pa.
    pose proof (settled_preview_exact s j b z Hs Hb Eb Hz Hl Hu) as Pb.
    repeat split; simpl.
    + rewrite Pa. by eexists.
    + rewrite Pb. by eexists.
    + rewrite Pa, Pb. intros [= E].
      pose proof (rank_le_count (queue s) i).
      pose proof (rank_le_count (queue s) j).
      apply previewAt_inj in E; [|unfold JS.exact; lia..].
      assert (rank (queue s) i = rank (queue s) j) as R by lia.
      destruct (Nat.lt_total i j) as [L|[L|L]]; [|done|].
      * pose proof (rank_lt _ _ _ _ L Ha Ea). lia.
      * pose proof (rank_lt _ _ _ _ L Hb Eb). lia.
  - intros p n m e1 e2 Hn Hm E. apply append_inv_head in E.
    apply padStart_toString_inj; [done..|].
    by destruct (first_occurrence_unique "." _ _ _ _
                   (padStart_dotfree n Hn) (padStart_dotfree m Hm) E).
  - intros filename B. by apply getExtension_dotfree.
Qed.

Lemma C10_names_distinct_within_commit_witness :
  let s := run initial [SelectFiles (counting 0) batchA] in
  ∃ a' b',
    queue (step s (ClickMoveToStage2 true)) !! 0%nat = Some a'
    ∧ queue (step s (ClickMoveToStage2 true)) !! 2%nat = Some b'
    ∧ stage a' = Stage2 ∧ stage b' = Stage2
    ∧ is_Some (newName a') ∧ is_Some (newName b')
    ∧ newName a' ≠ newName b'.
Proof.
  intros s.
  assert (queue s !! 0%nat
          = Some (mkItem "0" (photo "siteA-1" "a.jpg") "a.jpg" "siteA-1" Stage1
                         idle None None (Some "01-001.jpg"))) as Ha
    by (vm_compute; reflexivity).
  assert (queue s !! 2%nat
          = Some (mkItem "2" (photo "siteA-1" "c.webp") "c.webp" "siteA-1" Stage1
                         idle None None (Some "01-003.webp"))) as Hb
    by (vm_compute; reflexivity).
  exact (proj1 C10_names_distinct_within_commit
           [SelectFiles (counting 0) batchA] 1 0%nat 2%nat _ _ eq_refl
           ltac:(vm_compute; discriminate) ltac:(vm_compute; discriminate)
           ltac:(discriminate) Ha Hb eq_refl eq_refl).
Defined.

(** C10 as stated fails: after the Start # field was emptied the start
    index is [NaN], and the two files committed together are both named
    01-NaN.jpg (first part). An integer start index does not help from
    [2^53] on, where the cursor no longer moves: the two files are both
    named 01-9007199254740992.jpg (second part). *)
Lemma C10_names_collide_counterexample :
  ¬ (∀ (events : list Event) (i j : nat) (a b : FileQueueItem),
       let s := run initial events in
       i ≠ j → queue s !! i = Some a → queue s !! j = Some b →
       stage a = Stage1 → stage b = Stage1 →
       ∃ a' b',
         queue (step s (ClickMoveToStage2 true)) !! i = Some a'
         ∧ queue (step s (ClickMoveToStage2 true)) !! j = Some b'
         ∧ newName a' ≠ newName b')
  ∧ ¬ (∀ (events : list Event) (z : Z) (i j : nat) (a b : FileQueueItem),
         let s := run initial events in
         startIndex s = JS.Fin z →
         i ≠ j → queue s !! i = Some a → queue s !! j = Some b →
         stage a = Stage1 → stage b = Stage1 →
         ∃ a' b',
           queue (step s (ClickMoveToStage2 true)) !! i = Some a'
           ∧ queue (step s (ClickMoveToStage2 true)) !! j = Some b'
           ∧ newName a' ≠ newName b').
Proof.
  split; intros H.
  - destruct (H [ChangeStartIndex JS.NaN; SelectFiles (counting 0) batchC]
                0%nat 1%nat _ _ ltac:(discriminate) eq_refl eq_refl eq_refl eq_refl)
      as (a' & b' & Ha & Hb & N).
    vm_compute in Ha, Hb. injection Ha as <-. injection Hb as <-.
    by apply N.
  - destruct (H [ChangeStartIndex (JS.Fin (2 ^ 53)); SelectFiles (counting 0) batchC]
                (2 ^ 53) 0%nat 1%nat _ _ eq_refl ltac:(discriminate)
                eq_refl eq_refl eq_refl eq_refl)
      as (a' & b' & Ha & Hb & N).
    vm_compute in Ha, Hb. injection Ha as <-. injection Hb as <-.
    by apply N.
Qed.

(** C5. [generateZipPackage] files, in item order, one entry per item
    whose [newName] is truthy, under exactly that name and holding the
    item's file, and then the entry [data_summary.csv]. Its text is the
    header line followed by one line per such item: the four quoted fields
    original name, new name, folder, temperature, and a newline, with
    [N/A] where the temperature is missing (or empty). An item whose
    [newName] is missing or empty adds neither an entry nor a line. For
    two exported items with temperatures "23.5" and none, the manifest has
    two data lines and the second ends with the field [N/A]. *)
Theorem C5_generateZipPackage_manifest :
  (∀ items : list FileQueueItem,
     let eligible := filter (λ it, JS.truthy (newName it)) items in
     let line it :=
       dquote ++ originalName it ++ dquote ++ ","
       ++ dquote ++ default "" (newName it) ++ dquote ++ ","
       ++ dquote ++ folderName it ++ dquote ++ ","
       ++ dquote ++ safeTemp it ++ dquote ++ newline in
     let manifest :=
       ("Original Name,New Name,Folder,Temperature" ++ newline)
       ++ joinRows (map line eligible) in
     generateZipPackage items
     = (map (λ it, (default "" (newName it), FileData (file it))) eligible
        ++ [("data_summary.csv", TextData manifest)])%list)
  ∧ (∀ it : FileQueueItem,
       (JS.truthy (newName it) = true ↔ ∃ n, newName it = Some n ∧ n ≠ "")
       ∧ (temperature it = None → safeTemp it = "N/A")
       ∧ (∀ t, temperature it = Some t → t ≠ "" → safeTemp it = t))
  ∧ (∀ (before after : list FileQueueItem) (it : FileQueueItem),
       JS.truthy (newName it) = false →
       generateZipPackage (before ++ it :: after)
       = generateZipPackage (before ++ after))
  ∧ (let s := run initial [SelectFiles (counting 0) (take 2 batchA);
                           ClickMoveToStage2 true; EditTemperature "0" "23.5";
                           ClickMoveToStage3 true] in
     handleDownload s
     = Some [("01-001.jpg", FileData (photo "siteA-1" "a.jpg"));
             ("01-002.png", FileData (photo "siteA-1" "b.png"));
             ("data_summary.csv",
              TextData (csvHeader
                        ++ csvRow "a.jpg" "01-001.jpg" "siteA-1" "23.5"
                        ++ csvRow "b.png" "01-002.png" "siteA-1" "N/A"))]).
Proof.
  split; [|split; [|split]].
  - intros items eligible line manifest. apply generateZipPackage_eq.
  - intros it. split; [|split].
    + unfold JS.truthy. destruct (newName it) as [n|]; split.
      * intros H. exists n. split; [done|]. intros ->. done.
      * intros (m & [= <-] & Hn). by destruct (String.eqb_spec n "").
      * done.
      * by intros (m & ? & _).
    + unfold safeTemp. by intros ->.
    + unfold safeTemp. intros t -> Ht. simpl. by destruct (String.eqb_spec t "").
  - intros before after it H. rewrite !generateZipPackage_eq.
    rewrite !filter_app, filter_cons, decide_False; [done|].
    rewrite H. simpl. tauto.
  - by vm_compute.
Qed.

Lemma C5_generateZipPackage_manifest_witness :
  let unnamed := newItem "u" (photo "siteA-1" "x.jpg") in
  let named := with_lock (with_previewName (Some "01-001.jpg")
                            (newItem "n" (photo "siteA-1" "y.jpg"))) in
  generateZipPackage ([named] ++ unnamed :: [named])
  = generateZipPackage ([named] ++ [named]).
Proof.
  intros unnamed named.
  apply (proj1 (proj2 (proj2 C5_generateZipPackage_manifest)) [named] [named] unnamed).
  reflexivity.
Defined.

(** C6. [moveToStage3], once it proceeds, puts every Stage 2 item at
    Stage 3 whether or not it has a temperature, changing nothing else in
    it, and returns every Stage 1 and Stage 3 item as it is. When some
    Stage 2 item has no temperature the handler asks one yes/no question
    and shows no notice; answering no leaves the state as it was. When all
    have one, no question is asked. The preview effect does not run. *)
Theorem C6_moveToStage3_advances_all (s : State) :
  let s' := step s (ClickMoveToStage3 true) in
  Forall2 (λ it it',
     if decide (stage it = Stage2)
     then stage it' = Stage3
          ∧ item_id it' = item_id it ∧ file it' = file it
          ∧ originalName it' = originalName it ∧ folderName it' = folderName it
          ∧ status it' = status it ∧ temperature it' = temperature it
          ∧ newName it' = newName it ∧ previewName it' = previewName it
     else it' = it)
    (queue s) (queue s')
  ∧ prefix s' = prefix s ∧ startIndex s' = startIndex s
  ∧ filterSuffix s' = filterSuffix s ∧ onlyFilter s' = onlyFilter s
  ∧ alerts true (moveToStage3 s) = [] ∧ alerts false (moveToStage3 s) = []
  ∧ ((∃ it, it ∈ queue s ∧ stage it = Stage2 ∧ JS.truthy (temperature it) = false) →
     length (confirms true (moveToStage3 s)) = 1%nat
     ∧ step s (ClickMoveToStage3 false) = s)
  ∧ (¬ (∃ it, it ∈ queue s ∧ stage it = Stage2 ∧ JS.truthy (temperature it) = false) →
     confirms true (moveToStage3 s) = []
     ∧ step s (ClickMoveToStage3 false) = s').
Proof.
  intros s'.
  assert (∀ ok, step s (ClickMoveToStage3 ok) = reply ok (moveToStage3 s)) as St.
  { intros ok. unfold step, rerender. rewrite decide_True; [done|].
    unfold handle, effectDeps, moveToStage3.
    destruct ok; case_match; simpl; by rewrite ?length_map. }
  assert (existsb (λ i, bool_decide (stage i = Stage2)
                        && negb (JS.truthy (temperature i))) (queue s) = true
          ↔ ∃ it, it ∈ queue s ∧ stage it = Stage2
                  ∧ JS.truthy (temperature it) = false) as Ex.
  { rewrite existsb_exists. split; intros (it & I & H); exists it.
    - apply andb_prop in H as [H1 H2]. apply bool_decide_eq_true in H1.
      apply negb_true_iff in H2. by rewrite list_elem_of_In.
    - destruct H as [H1 H2]. rewrite <- list_elem_of_In. split; [done|].
      by rewrite H2, bool_decide_true. }
  unfold s'. rewrite St.
  split; [|split; [|split; [|split; [|split; [|split; [|split]]]]]].
  - rewrite moveToStage3_queue. apply Forall2_fmap_r, Forall_Forall2_diag, Forall_forall.
    intros it _. simpl. destruct (decide (stage it = Stage2)); [by repeat split|done].
  - unfold moveToStage3. by case_match.
  - unfold moveToStage3. by case_match.
  - unfold moveToStage3. by case_match.
  - unfold moveToStage3. by case_match.
  - unfold moveToStage3. by case_match.
  - unfold moveToStage3. by case_match.
  - split.
    + intros H. apply Ex in H. rewrite St. unfold moveToStage3. by rewrite H.
    + intros H. rewrite St. unfold moveToStage3.
      destruct (existsb _ (queue s)) eqn:E; [|done]. destruct H. by apply Ex.
Qed.

Lemma C6_moveToStage3_advances_all_witness :
  let s := run initial [SelectFiles (counting 0) batchA; ClickMoveToStage2 true;
                        EditTemperature "0" "23.5"] in
  length (confirms true (moveToStage3 s)) = 1%nat
  ∧ step s (ClickMoveToStage3 false) = s.
Proof.
  intros s.
  destruct (C6_moveToStage3_advances_all s) as (_ & _ & _ & _ & _ & _ & _ & G & _).
  apply G.
  exists (mkItem "1" (photo "siteA-1" "b.png") "b.png" "siteA-1" Stage2
                 idle None (Some "01-002.png") (Some "01-002.png")).
  split; [|split; reflexivity].
  vm_compute. apply list_elem_of_further, list_elem_of_here.
Defined.

(** C7. The columns of the page are filters of the one queue, so each is
    a sublist of it. A batch is appended behind the items already there,
    and the files of the appended items are the accepted files in the
    order they were given. After any sequence of events, the earlier items
    that were not removed come first and in their earlier order; a removal
    leaves exactly the items with another identifier, in order. *)
Theorem C7_queue_order_preserved :
  (∀ (g : Stage) (q : list FileQueueItem),
     stageView g q = filter (λ i, stage i = g) q ∧ stageView g q `sublist_of` q)
  ∧ (∀ (random : nat → string) (files : list File) (s : State),
       ∃ olds news,
         queue (step s (SelectFiles random files)) = (olds ++ news)%list
         ∧ Forall2 persists (queue s) olds
         ∧ map file news
           = filter (λ f, isImageFile f
                          ∧ (onlyFilter s = true
                             → JS.endsWith (folderNameOf f) (filterSuffix s) = true))
                    files)
  ∧ (∀ (id : string) (s : State),
       Forall2 persists (filter (λ it, item_id it ≠ id) (queue s))
                        (queue (step s (ClickRemove id))))
  ∧ (∀ (events : list Event) (s : State),
       ∃ olds news,
         queue (run s events) = (olds ++ news)%list
         ∧ Forall2 persists
             (filter (λ it, item_id it ∉ removedIds events) (queue s)) olds).
Proof.
  split; [|split; [|split]].
  - intros g q. split; [done|]. apply sublist_filter.
  - intros random files s.
    destruct (select_step random files s) as (olds & news & E & Ho & Hn).
    exists olds, news. split; [done|]. split; [done|].
    rewrite <- (filteredFiles_files random). by apply preview_only_files.
  - intros id s. apply (rerender_persists s (handle (ClickRemove id) s)).
  - intros events s. apply run_evolves.
Qed.

(** C8. With the folder filter on, a batch appends exactly the image
    files whose folder name ends with the suffix, in input order, and
    nothing else; the items in front are the earlier ones. The test is
    "the folder name is some text followed by the suffix". With suffix
    "-1", of the folders siteA-1, siteA-2, siteB-1 the first and the third
    are taken. *)
Theorem C8_folder_filter :
  (∀ (random : nat → string) (files : list File) (s : State),
     onlyFilter s = true →
     ∃ olds news,
       queue (step s (SelectFiles random files)) = (olds ++ news)%list
       ∧ length olds = length (queue s)
       ∧ map file news
         = filter (λ f, isImageFile f
                        ∧ JS.endsWith (folderNameOf f) (filterSuffix s) = true)
                  files
       ∧ Forall (λ it, stage it = Stage1
                       ∧ folderName it = folderNameOf (file it)
                       ∧ ∃ p, folderName it = p ++ filterSuffix s) news)
  ∧ (let s := step initial (SelectFiles (counting 0) batchC) in
     onlyFilter initial = true ∧ filterSuffix initial = "-1"
     ∧ map folderNameOf batchC = ["siteA-1"; "siteA-2"; "siteB-1"]
     ∧ map folderName (queue s) = ["siteA-1"; "siteB-1"]
     ∧ map originalName (queue s) = ["a.jpg"; "c.jpg"]).
Proof.
  split; [|by vm_compute].
  intros random files s F.
  destruct (select_step random files s) as (olds & news & E & Ho & Hn).
  exists olds, news. split; [done|].
  split; [symmetry; by eapply Forall2_length|].
  assert (map file news = map file (filteredFiles random files s)) as Hf
    by by apply preview_only_files.
  split.
  - rewrite Hf, filteredFiles_files. apply list_filter_iff. intros f. simpl. tauto.
  - pose proof (filteredFiles_fresh random files s) as Fr.
    assert (Forall (λ it, JS.endsWith (folderName it) (filterSuffix s) = true)
                   (filteredFiles random files s)) as Fs.
    { unfold filteredFiles. rewrite F. apply Forall_forall.
      intros it [H _]%list_elem_of_filter. by apply Is_true_true. }
    revert Hn Fr Fs. generalize (filteredFiles random files s). clear.
    intros l Hn. induction Hn as [|it it' l k H _ IH]; intros Fr Fs; [constructor|].
    inversion_clear Fr as [|?? (G & _ & D & _) Fr']. inversion_clear Fs as [|?? S Fs'].
    constructor; [|by apply IH].
    rewrite H. simpl. repeat split; [done..|]. by apply endsWith_spec.
Qed.

Lemma C8_folder_filter_witness :
  ∃ olds news,
    queue (step initial (SelectFiles (counting 0) batchC)) = (olds ++ news)%list
    ∧ length olds = length (queue initial)
    ∧ map file news
      = filter (λ f, isImageFile f
                     ∧ JS.endsWith (folderNameOf f) (filterSuffix initial) = true)
               batchC
    ∧ Forall (λ it, stage it = Stage1
                    ∧ folderName it = folderNameOf (file it)
                    ∧ ∃ p, folderName it = p ++ filterSuffix initial) news.
Proof.
  apply (proj1 C8_folder_filter (counting 0) batchC initial). reflexivity.
Defined.

(** C9 (amended). The identifier of an item never changes: after any
    sequence of events the earlier items that were not removed are there
    with the identifiers they had, and an event other than a removal keeps
    the identifier at every position. The identifiers in the queue are
    among those the generator returned; they are pairwise different when
    the generator never returned the same string twice. *)
Theorem C9_ids_stable_unique_if_generator_is :
  (∀ (events : list Event) (s : State),
     ∃ olds news,
       queue (run s events) = (olds ++ news)%list
       ∧ Forall2 (λ it it', item_id it' = item_id it)
           (filter (λ it, item_id it ∉ removedIds events) (queue s)) olds)
  ∧ (∀ (e : Event) (s : State) (i : nat) (it : FileQueueItem),
       removedBy e = [] → queue s !! i = Some it →
       ∃ it', queue (step s e) !! i = Some it' ∧ item_id it' = item_id it)
  ∧ (∀ events : list Event,
       map item_id (queue (run initial events)) `sublist_of` drawnIds events)
  ∧ (∀ events : list Event,
       NoDup (drawnIds events) → NoDup (map item_id (queue (run initial events)))).
Proof.
  split; [|split; [|split]].
  - intros events s. destruct (run_evolves events s) as (olds & news & E & H).
    exists olds, news. split; [done|]. eapply Forall2_impl; [exact H|].
    by intros it it' (I & _).
  - intros e s i it R H.
    destruct (step_evolves s e) as (olds & news & E & F). rewrite R in F.
    rewrite filter_keep_all in F.
    destruct (Forall2_lookup_l _ _ _ _ _ F H) as (it' & L & (I & _)).
    exists it'. by rewrite E, (lookup_app_l_Some _ _ _ _ L).
  - intros events. apply (run_ids events initial).
  - intros events H. eapply sublist_NoDup; [exact H|]. apply (run_ids events initial).
Qed.

Lemma C9_ids_stable_unique_if_generator_is_witness :
  NoDup (map item_id (queue (run initial [SelectFiles (counting 0) batchA;
                                          SelectFiles (counting 3) batchB]))).
Proof.
  apply (proj2 (proj2 (proj2 C9_ids_stable_unique_if_generator_is))).
  refine (bool_decide_unpack _ _). vm_compute. exact I.
Defined.

(** C9 as stated fails: a generator that returns the same string twice
    puts two items with one identifier into the queue. *)
Lemma C9_ids_unique_counterexample :
  ¬ (∀ events : list Event, NoDup (map item_id (queue (run initial events)))).
Proof.
  intros H. specialize (H [SelectFiles stuck batchA]).
  vm_compute in H. apply NoDup_cons in H as [H _]. apply H, list_elem_of_here.
Qed.

(** * Further properties of the code *)

(** ** The data model is maintained *)

Section DataModel.

Implicit Types (q : list FileQueueItem) (s : State) (e : Event).

Lemma includes_nonempty (c : ascii) (t : string) :
  JS.includes c t = true → JS.truthy (Some t) = true.
Proof. by destruct t. Qed.

Lemma previewAt_truthy (p : string) (n : JS.Num) (it : FileQueueItem) :
  JS.truthy (Some (previewAt p n it)) = true.
Proof.
  apply (includes_nonempty "."). unfold previewAt.
  rewrite !includes_append. simpl. by rewrite !orb_true_r.
Qed.

Lemma settled_previews_defined s :
  settled s →
  Forall (λ it, stage it = Stage1 →
                ∃ n, previewName it = Some (previewAt (prefix s) n it)) (queue s).
Proof.
  intros H. apply Forall_lookup. intros i it L E. eexists.
  by apply settled_preview.
Qed.

Lemma wellFormed_with_previewName (v : option string) (it : FileQueueItem) :
  stage it = Stage1 → wellFormed it → wellFormed (with_previewName v it).
Proof.
  intros E (O & F & I & S & N & L).
  unfold wellFormed; simpl. intuition congruence.
Qed.

Lemma wellFormed_with_lock (p : string) (n : JS.Num) (it : FileQueueItem) :
  previewName it = Some (previewAt p n it) →
  wellFormed it → wellFormed (with_lock it).
Proof.
  intros P (O & F & I & S & N & L).
  unfold wellFormed; simpl. rewrite P, previewAt_truthy. intuition congruence.
Qed.

Lemma wellFormed_with_stage (it : FileQueueItem) :
  stage it = Stage2 → wellFormed it → wellFormed (with_stage Stage3 it).
Proof.
  intros E (O & F & I & S & N & L).
  assert (stage it ≠ Stage1) as G by congruence. destruct (L G).
  unfold wellFormed; simpl. intuition congruence.
Qed.

Lemma wellFormed_with_temperature (value : string) (it : FileQueueItem) :
  wellFormed it → wellFormed (with_temperature value it).
Proof.
  intros (O & F & I & S & N & L).
  unfold wellFormed; simpl. destruct (negb (value =? "")%string) eqn:E; intuition.
Qed.

Lemma wellFormed_filteredFiles random files s :
  Forall wellFormed (filteredFiles random files s).
Proof.
  assert (∀ (g : nat → string) l,
            Forall (λ f, isImageFile f = true) l →
            Forall wellFormed (imap (λ k f, newItem (g k) f) l)) as H.
  { intros g l. revert g. induction l as [|f l IH]; intros g Hl; [constructor|].
    inversion_clear Hl. rewrite imap_cons. constructor; [|by apply (IH (g ∘ S))].
    unfold wellFormed; simpl. intuition congruence. }
  assert (Forall (λ f, isImageFile f = true) (filter (λ f, isImageFile f) files)) as Hi.
  { apply Forall_forall. intros f [Hf _]%list_elem_of_filter. by apply Is_true_true. }
  unfold filteredFiles. destruct (onlyFilter s); [|by apply H].
  apply Forall_forall. intros it [_ Hit]%list_elem_of_filter.
  revert it Hit. apply Forall_forall. by apply H.
Qed.

Lemma recompute_wellFormed (p : string) (n : JS.Num) q :
  Forall wellFormed q → Forall wellFormed (recomputePreviews p n q).
Proof.
  intros H. revert n. induction H as [|it q Hit _ IH]; intros n; simpl; [constructor|].
  case_decide; constructor; auto. by apply wellFormed_with_previewName.
Qed.

Lemma handle_wellFormed s e :
  settled s → Forall wellFormed (queue s) → Forall wellFormed (queue (handle e s)).
Proof.
  intros Hs H.
  destruct e as [v|v|v|b|random files|[]|ok|id value|id]; try done.
  - unfold handle. rewrite processFiles_queue. apply Forall_app. split; [done|].
    apply wellFormed_filteredFiles.
  - unfold handle. rewrite moveToStage2_queue. apply Forall_fmap.
    pose proof (settled_previews_defined s Hs) as P.
    eapply Forall_impl; [apply Forall_and; split; [exact H|exact P]|].
    intros it [W D]. simpl. case_decide as E; [|done].
    destruct (D E) as [n Hn]. by eapply wellFormed_with_lock.
  - unfold handle. destruct ok.
    + rewrite moveToStage3_queue. apply Forall_fmap. eapply Forall_impl; [exact H|].
      intros it W. simpl. case_decide; [|done]. by apply wellFormed_with_stage.
    + destruct (moveToStage3_declined s) as [-> | ->]; [done|].
      rewrite moveToStage3_queue. apply Forall_fmap. eapply Forall_impl; [exact H|].
      intros it W. simpl. case_decide; [|done]. by apply wellFormed_with_stage.
  - unfold handle, updateTemperature. simpl. apply Forall_fmap.
    eapply Forall_impl; [exact H|]. intros it W. simpl.
    case_decide; [|done]. by apply wellFormed_with_temperature.
  - unfold handle, removeItem. simpl. apply Forall_forall.
    intros it [_ Hit]%list_elem_of_filter. revert it Hit. by apply Forall_forall.
Qed.

Lemma step_wellFormed s e :
  settled s → Forall wellFormed (queue s) → Forall wellFormed (queue (step s e)).
Proof.
  intros Hs H. unfold step, rerender. case_decide; [by apply handle_wellFormed|].
  unfold previewEffect. simpl. by apply recompute_wellFormed, handle_wellFormed.
Qed.

Lemma run_wellFormed events s :
  settled s → Forall wellFormed (queue s) → Forall wellFormed (queue (run s events)).
Proof.
  revert s; induction events as [|e events IH]; intros s Hs H; [done|].
  simpl. apply IH; [by apply step_settled|by apply step_wellFormed].
Qed.

End DataModel.

(** ** Names across batches *)

Section Numbering.

Implicit Types (q : list FileQueueItem) (s : State) (e : Event).

Lemma lockedItems_recompute (p : string) (n : JS.Num) q :
  lockedItems (recomputePreviews p n q) = lockedItems q.
Proof.
  unfold lockedItems. revert n; induction q as [|it q IH]; intros n; simpl; [done|].
  destruct (decide (stage it = Stage1)) as [E|E].
  - rewrite !filter_cons. simpl. rewrite !decide_False by (intros G; by apply G).
    apply IH.
  - rewrite !filter_cons. rewrite !decide_True by done. by rewrite IH.
Qed.

Lemma lockedNames_map q (f : FileQueueItem → FileQueueItem) :
  (∀ it, stage (f it) = Stage1 ↔ stage it = Stage1) →
  (∀ it, newName (f it) = newName it) →
  lockedNames (map f q) = lockedNames q.
Proof.
  intros Hs Hn. unfold lockedNames, lockedItems.
  induction q as [|it q IH]; simpl; [done|]. rewrite !filter_cons.
  destruct (decide (stage it ≠ Stage1)) as [E|E].
  - rewrite decide_True by by rewrite Hs. simpl. by rewrite Hn, IH.
  - rewrite decide_False by by rewrite Hs. done.
Qed.

Lemma lockedNames_app q1 q2 :
  lockedNames (q1 ++ q2) = (lockedNames q1 ++ lockedNames q2)%list.
Proof. unfold lockedNames, lockedItems. by rewrite filter_app, map_app. Qed.

Lemma lockedNames_fresh q : Forall (λ it, stage it = Stage1) q → lockedNames q = [].
Proof.
  unfold lockedNames, lockedItems. induction 1 as [|it q E _ IH]; [done|].
  rewrite filter_cons, decide_False by (intros G; by apply G). done.
Qed.

Lemma lockedNames_all q :
  Forall (λ it, stage it ≠ Stage1) q → lockedNames q = map newName q.
Proof.
  unfold lockedNames, lockedItems. induction 1 as [|it q E _ IH]; [done|].
  rewrite filter_cons, decide_True by done. simpl. by f_equal.
Qed.

(** Two locked items at different positions have different names. *)
Lemma locked_distinct q i j a b :
  NoDup (lockedNames q) → q !! i = Some a → q !! j = Some b →
  stage a ≠ Stage1 → stage b ≠ Stage1 → newName a = newName b → i = j.
Proof.
  unfold lockedNames, lockedItems.
  revert i j; induction q as [|x q IH]; intros i j N Hi Hj Ha Hb E; [done|].
  rewrite filter_cons in N.
  assert (∀ k c, q !! k = Some c → stage c ≠ Stage1 →
            newName c ∈ map newName (filter (λ it, stage it ≠ Stage1) q)) as In.
  { intros k c Hk Hc. apply list_elem_of_fmap. exists c. split; [done|].
    apply list_elem_of_filter. split; [done|]. by eapply list_elem_of_lookup_2. }
  destruct i as [|i], j as [|j]; simplify_eq/=; [done|..].
  - rewrite decide_True in N by done. apply NoDup_cons in N as [N _].
    destruct N. rewrite E. by eapply In.
  - rewrite decide_True in N by done. apply NoDup_cons in N as [N _].
    destruct N. rewrite <- E. by eapply In.
  - f_equal. apply IH; auto. destruct (decide (stage x ≠ Stage1)); [|done].
    by apply NoDup_cons in N as [_ N].
Qed.

Lemma rank_full q : rank q (length q) = length (stageView Stage1 q).
Proof. unfold rank. by rewrite firstn_all. Qed.

Lemma recompute_Forall_locked (P : FileQueueItem → Prop) (p : string) (n : JS.Num) q :
  Forall (λ it, stage it ≠ Stage1 → P it) q →
  Forall (λ it, stage it ≠ Stage1 → P it) (recomputePreviews p n q).
Proof.
  intros F. revert n. induction F as [|it q Hit _ IH]; intros n; simpl; [constructor|].
  case_decide; constructor; auto. simpl. by intros G.
Qed.

Lemma stage1_count_recompute (p : string) (n : JS.Num) q :
  length (stageView Stage1 (recomputePreviews p n q))
  = length (stageView Stage1 q).
Proof.
  rewrite <- (length_map previewName), recompute_previews. apply length_imap.
Qed.

Lemma stage1_count_map q (f : FileQueueItem → FileQueueItem) :
  (∀ it, stage (f it) = Stage1 ↔ stage it = Stage1) →
  length (stageView Stage1 (map f q)) = length (stageView Stage1 q).
Proof.
  intros Hs. unfold stageView. induction q as [|it q IH]; simpl; [done|].
  rewrite !filter_cons. destruct (decide (stage it = Stage1)) as [E|E].
  - rewrite decide_True by by apply Hs. simpl. by rewrite IH.
  - rewrite decide_False by by rewrite Hs. done.
Qed.

Lemma stage1_count_filter q (P : FileQueueItem → Prop) `{∀ it, Decision (P it)} :
  (length (stageView Stage1 (filter P q)) ≤ length (stageView Stage1 q))%nat.
Proof.
  unfold stageView. rewrite list_filter_filter.
  induction q as [|it q IH]; simpl; [done|]. rewrite !filter_cons.
  destruct (decide (stage it = Stage1 ∧ P it)) as [[E _]|N].
  - rewrite decide_True by done. simpl. lia.
  - case_decide; simpl; lia.
Qed.

Lemma stage1_count_commit q :
  stageView Stage1
    (map (λ it, if decide (stage it = Stage1) then with_lock it else it) q)
  = [].
Proof.
  unfold stageView. induction q as [|it q IH]; [done|].
  simpl. rewrite filter_cons.
  destruct (decide (stage it = Stage1)); by rewrite decide_False.
Qed.

Lemma numbered_room (lo : Z) (room room' : nat) s :
  (room' ≤ room)%nat → numbered lo room s → numbered lo room' s.
Proof.
  intros L (cur & I & B & R & F & N). exists cur. repeat split; auto; lia.
Qed.

Lemma numbered_rerender (lo : Z) (room : nat) s s' :
  numbered lo room s' → numbered lo room (rerender s s').
Proof.
  unfold rerender. case_decide; [done|]. intros (cur & I & B & R & F & N).
  exists cur. unfold previewEffect. simpl. split; [done|]. split; [done|].
  split; [by rewrite stage1_count_recompute|]. split.
  - by apply recompute_Forall_locked.
  - unfold lockedNames. by rewrite lockedItems_recompute.
Qed.

Lemma numbered_commit (lo : Z) (room : nat) s :
  settled s → numbered lo room s → numbered lo room (reply true (moveToStage2 s)).
Proof.
  intros Hs (cur & I & B & R & F & N).
  set (count := length (filter (λ i, stage i = Stage1) (queue s))).
  assert (count = length (stageView Stage1 (queue s))) as Ec by done.
  assert (∀ i it, queue s !! i = Some it → stage it = Stage1 →
            previewName it
            = Some (previewAt (prefix s)
                      (JS.Fin (cur + Z.of_nat (rank (queue s) i))) it)
            ∧ (rank (queue s) i < count)%nat) as New.
  { intros i it L E. split.
    - apply settled_preview_exact; try done; lia.
    - pose proof (lookup_lt_Some _ _ _ L) as Bi.
      pose proof (rank_lt _ _ _ _ Bi L E) as Ri. by rewrite rank_full in Ri. }
  assert (∀ i it, queue s !! i = Some it → stage it ≠ Stage1 →
            ∃ n, newName it = Some (previewAt (prefix s) (JS.Fin n) it)
                 ∧ lo ≤ n < cur)
    as Old.
  { intros i it L. by apply (Forall_lookup_1 _ _ _ _ F L). }
  exists (cur + Z.of_nat count). simpl. fold count.
  split; [rewrite I; apply add_safe; unfold JS.exact; lia|].
  split; [lia|].
  split; [rewrite stage1_count_commit; simpl; lia|].
  split.
  - apply Forall_lookup_2. intros i it' L _.
    apply list_lookup_fmap_Some in L as (it & -> & L).
    destruct (decide (stage it = Stage1)) as [E|E].
    + destruct (New _ _ L E) as [P Ri]. eexists. split; [exact P|]. lia.
    + destruct (Old _ _ L E) as (n & P & Ri). exists n. split; [done|]. lia.
  - rewrite lockedNames_all.
    2:{ apply Forall_fmap, Forall_forall. intros it _. simpl. by case_decide. }
    apply NoDup_alt. intros i j x Li Lj.
    rewrite <- list_fmap_compose in Li, Lj.
    apply list_lookup_fmap_Some in Li as (a & -> & La).
    apply list_lookup_fmap_Some in Lj as (b & Ex & Lb). simpl in Ex.
    destruct (decide (stage a = Stage1)) as [Ea|Ea],
             (decide (stage b = Stage1)) as [Eb|Eb]; simpl in Ex.
    + destruct (New _ _ La Ea) as [Pa Ra], (New _ _ Lb Eb) as [Pb Rb].
      rewrite Pa, Pb in Ex. injection Ex as Ex.
      apply previewAt_inj in Ex; [|unfold JS.exact; lia..].
      destruct (Nat.lt_total i j) as [L|[L|L]]; [|done|].
      * pose proof (rank_lt _ _ _ _ L La Ea). lia.
      * pose proof (rank_lt _ _ _ _ L Lb Eb). lia.
    + destruct (New _ _ La Ea) as [Pa Ra], (Old _ _ Lb Eb) as (m & Pb & Rb).
      rewrite Pa, Pb in Ex. injection Ex as Ex.
      apply previewAt_inj in Ex; [|unfold JS.exact; lia..]. lia.
    + destruct (Old _ _ La Ea) as (m & Pa & Ra), (New _ _ Lb Eb) as [Pb Rb].
      rewrite Pa, Pb in Ex. injection Ex as Ex.
      apply previewAt_inj in Ex; [|unfold JS.exact; lia..]. lia.
    + by eapply (locked_distinct (queue s)).
Qed.

Lemma numbered_map (lo : Z) (room : nat) s (f : FileQueueItem → FileQueueItem) :
  (∀ it, stage (f it) = Stage1 ↔ stage it = Stage1) →
  (∀ it, newName (f it) = newName it) →
  (∀ it, originalName (f it) = originalName it) →
  numbered lo room s → numbered lo room (setQueue (map f) s).
Proof.
  intros Hs Hn Ho (cur & I & B & R & F & N). exists cur. simpl.
  split; [done|]. split; [done|].
  split; [by rewrite stage1_count_map|]. split.
  - apply Forall_fmap. eapply Forall_impl; [exact F|]. intros it H. simpl.
    rewrite Hs, Hn. unfold previewAt in *. by rewrite Ho.
  - by rewrite lockedNames_map.
Qed.

Lemma numbered_advance (lo : Z) (room : nat) s :
  numbered lo room s →
  numbered lo room (setQueue (map (λ it,
    if decide (stage it = Stage2) then with_stage Stage3 it else it)) s).
Proof.
  apply numbered_map; intros it; case_decide as E; simpl; try done.
  rewrite E. split; discriminate.
Qed.

Lemma filteredFiles_count random files s :
  (length (filteredFiles random files s)
   ≤ length (drawnBy (SelectFiles random files)))%nat.
Proof.
  unfold filteredFiles, drawnBy. rewrite length_imap.
  destruct (onlyFilter s).
  - etrans; [apply length_filter|]. by rewrite length_imap.
  - by rewrite length_imap.
Qed.

Lemma numbered_handle (lo : Z) (room : nat) s e :
  settled s → keepsNaming e →
  numbered lo (length (drawnBy e) + room) s → numbered lo room (handle e s).
Proof.
  intros Hs K H.
  destruct e as [v|v|v|b|random files|[]|ok|id value|id]; try done.
  - destruct H as (cur & I & B & R & F & N). unfold handle.
    destruct (processFiles_config true random files s) as (P & Ix & _).
    pose proof (filteredFiles_fresh random files s) as Fr.
    pose proof (filteredFiles_count random files s) as Fc.
    exists cur. rewrite processFiles_queue, P, Ix.
    split; [done|]. split; [done|]. split; [|split].
    + unfold stageView in *. rewrite filter_app, length_app.
      pose proof (length_filter (λ i, stage i = Stage1)
                    (filteredFiles random files s)). lia.
    + apply Forall_app. split; [done|].
      eapply Forall_impl; [exact Fr|]. by intros it (E & _) G.
    + rewrite lockedNames_app, (lockedNames_fresh (filteredFiles _ _ _)).
      * by rewrite app_nil_r.
      * eapply Forall_impl; [exact Fr|]. by intros it (E & _).
  - by apply numbered_commit.
  - unfold handle, moveToStage3. destruct ok; case_match; simpl; try done;
      by apply numbered_advance.
  - unfold handle, updateTemperature.
    apply numbered_map; auto; intros it; by case_decide.
  - destruct H as (cur & I & B & R & F & N). exists cur. simpl.
    split; [done|]. split; [done|]. split; [|split].
    + pose proof (stage1_count_filter (queue s) (λ it, item_id it ≠ id)).
      simpl in R. lia.
    + apply Forall_forall. intros it [_ Hit]%list_elem_of_filter.
      exact (proj1 (Forall_forall _ _) F it Hit).
    + eapply sublist_NoDup; [exact N|]. unfold lockedNames, lockedItems.
      apply sublist_map. generalize (queue s). intros q.
      induction q as [|it q IH]; [done|]. rewrite !filter_cons.
      destruct (decide (item_id it ≠ id)), (decide (stage it ≠ Stage1));
        rewrite ?filter_cons, ?decide_True, ?decide_False by done;
        by try constructor.
Qed.

Lemma numbered_step (lo : Z) (room : nat) s e :
  settled s → keepsNaming e →
  numbered lo (length (drawnBy e) + room) s → numbered lo room (step s e).
Proof. intros. by apply numbered_rerender, numbered_handle. Qed.

Lemma numbered_run (lo : Z) (room : nat) events s :
  settled s → Forall keepsNaming events →
  numbered lo (length (drawnIds events) + room) s →
  numbered lo room (run s events).
Proof.
  revert s; induction events as [|e events IH]; intros s Hs K H; [done|].
  inversion_clear K. simpl.
  apply IH; [by apply step_settled|done|].
  apply numbered_step; [done..|].
  unfold drawnIds in H. simpl in H. rewrite length_app in H.
  eapply numbered_room; [|exact H]. unfold drawnIds. lia.
Qed.

End Numbering.

(** ** Paths and folder names *)

Section Paths.

Lemma split_nonempty (sep : ascii) (s : string) : JS.split sep s ≠ [].
Proof.
  induction s as [|a s IH]; simpl; [done|].
  destruct (Ascii.eqb a sep); [done|]. by destruct (JS.split sep s).
Qed.

Lemma split_free (sep : ascii) (s : string) :
  JS.includes sep s = false → JS.split sep s = [s].
Proof.
  induction s as [|a s IH]; simpl; [done|]. intros H.
  apply orb_false_iff in H as [Ha Hs]. rewrite Ha, (IH Hs). done.
Qed.

(** Splitting a text that has a separator in the middle. *)
Lemma split_append (sep : ascii) (x y : string) :
  JS.split sep (x ++ String sep y) = (JS.split sep x ++ JS.split sep y)%list.
Proof.
  induction x as [|a x IH]; simpl.
  - by rewrite Ascii.eqb_refl.
  - destruct (Ascii.eqb a sep); [by rewrite IH|]. rewrite IH.
    pose proof (split_nonempty sep x). by destruct (JS.split sep x).
Qed.

Lemma folderNameOf_root (f : File) :
  JS.includes "/" (webkitRelativePath f) = false → folderNameOf f = "Root".
Proof. intros H. unfold folderNameOf. by rewrite (split_free _ _ H). Qed.

Lemma folderNameOf_parts (f : File) (front : list string) (dir base : string) :
  JS.split "/" (webkitRelativePath f) = (front ++ [dir; base])%list →
  folderNameOf f = dir.
Proof.
  intros E. unfold folderNameOf. rewrite E, length_app. simpl length.
  destruct (Nat.ltb_spec 1 (length front + 2)); [|lia].
  replace (length front + 2 - 2)%nat with (length front) by lia.
  rewrite app_nth2 by lia. by rewrite Nat.sub_diag.
Qed.

End Paths.

(** ** Single events *)

Section Handlers.

Implicit Types (q : list FileQueueItem) (s : State) (e : Event).

Lemma state_eta s :
  mkState (queue s) (prefix s) (startIndex s) (filterSuffix s) (onlyFilter s) = s.
Proof. by destruct s. Qed.

Lemma setQueue_same s (f : list FileQueueItem → list FileQueueItem) :
  f (queue s) = queue s → setQueue f s = s.
Proof. intros E. unfold setQueue. rewrite E. apply state_eta. Qed.

Lemma rerender_same s : rerender s s = s.
Proof. unfold rerender. by rewrite decide_True. Qed.

Lemma filter_all {A} (P : A → Prop) `{∀ x, Decision (P x)} (l : list A) :
  Forall P l → filter P l = l.
Proof.
  induction 1 as [|x l Hx _ IH]; [done|].
  by rewrite filter_cons, decide_True, IH.
Qed.

Lemma filter_none {A} (P : A → Prop) `{∀ x, Decision (P x)} (l : list A) :
  Forall (λ x, ¬ P x) l → filter P l = [].
Proof.
  induction 1 as [|x l Hx _ IH]; [done|].
  by rewrite filter_cons, decide_False.
Qed.

Lemma filter_empty_Forall {A} (P : A → Prop) `{∀ x, Decision (P x)} (l : list A) :
  filter P l = [] → Forall (λ x, ¬ P x) l.
Proof.
  induction l as [|x l IH]; [constructor|]. rewrite filter_cons.
  destruct (decide (P x)); [done|]. constructor; auto.
Qed.

Lemma map_unchanged {A} (f : A → A) (l : list A) :
  Forall (λ x, f x = x) l → map f l = l.
Proof. induction 1 as [|x l Hx _ IH]; simpl; congruence. Qed.

(** *** Removal *)

Lemma removeItem_absent (id : string) s :
  Forall (λ it, item_id it ≠ id) (queue s) → step s (ClickRemove id) = s.
Proof.
  intros H. unfold step. simpl handle. unfold removeItem.
  rewrite setQueue_same by by apply filter_all. apply rerender_same.
Qed.

Lemma removeItem_gone (id : string) s :
  Forall (λ it, item_id it ≠ id) (queue (step s (ClickRemove id))).
Proof.
  assert (Forall (λ it, item_id it ≠ id) (filter (λ it, item_id it ≠ id) (queue s)))
    as H.
  { apply Forall_forall. by intros it [Hit _]%list_elem_of_filter. }
  unfold step, rerender. case_decide; [exact H|].
  unfold previewEffect. simpl.
  revert H. generalize (filter (λ it, item_id it ≠ id) (queue s)).
  generalize (startIndex s). intros n l H. revert n.
  induction H as [|it l Hit _ IH]; intros n; simpl; [constructor|].
  case_decide; constructor; auto.
Qed.

(** *** Temperature edits *)

Lemma step_edit (id value : string) s :
  step s (EditTemperature id value) = updateTemperature id value s.
Proof.
  unfold step, rerender. rewrite decide_True; [done|].
  unfold effectDeps. simpl. by rewrite length_map.
Qed.

Lemma updateTemperature_absent (id value : string) s :
  Forall (λ it, item_id it ≠ id) (queue s) → updateTemperature id value s = s.
Proof.
  intros H. unfold updateTemperature. apply setQueue_same, map_unchanged.
  eapply Forall_impl; [exact H|]. intros it Hit. simpl. by rewrite decide_False.
Qed.

Lemma updateTemperature_twice (id v1 v2 : string) s :
  updateTemperature id v2 (updateTemperature id v1 s) = updateTemperature id v2 s.
Proof.
  unfold updateTemperature, setQueue. simpl. f_equal.
  rewrite <- list_fmap_compose. apply list_fmap_ext. intros _ it _. simpl.
  destruct (decide (item_id it = id)); simpl.
  - by rewrite decide_True.
  - by rewrite decide_False.
Qed.

Lemma updateTemperature_comm (id1 id2 v1 v2 : string) s :
  id1 ≠ id2 →
  updateTemperature id1 v1 (updateTemperature id2 v2 s)
  = updateTemperature id2 v2 (updateTemperature id1 v1 s).
Proof.
  intros D. unfold updateTemperature, setQueue. simpl. f_equal.
  rewrite <- !list_fmap_compose. apply list_fmap_ext. intros _ it _. simpl.
  destruct (decide (item_id it = id1)) as [E1|E1],
           (decide (item_id it = id2)) as [E2|E2]; simpl;
    rewrite ?decide_True, ?decide_False by done; congruence.
Qed.

(** *** The two confirm buttons *)

Lemma step_stage3 (ok : bool) s :
  step s (ClickMoveToStage3 ok) = reply ok (moveToStage3 s).
Proof.
  unfold step, rerender. rewrite decide_True; [done|].
  unfold handle, effectDeps, moveToStage3.
  destruct ok; case_match; simpl; by rewrite ?length_map.
Qed.

Lemma step_length s e :
  (∀ random files, e ≠ SelectFiles random files) → (∀ id, e ≠ ClickRemove id) →
  length (queue (step s e)) = length (queue s).
Proof.
  intros NS NR.
  assert (length (queue (handle e s)) = length (queue s)) as H.
  { destruct e as [v|v|v|b|random files|[]|ok|id value|id]; try done.
    - by destruct (NS random files).
    - simpl. by rewrite length_map.
    - unfold handle, moveToStage3. destruct ok; case_match; simpl;
        by rewrite ?length_map.
    - simpl. by rewrite length_map.
    - by destruct (NR id). }
  unfold step, rerender. case_decide; [done|].
  unfold previewEffect. simpl. by rewrite recompute_length.
Qed.

Lemma commit_no_stage1 s :
  stageView Stage1 (queue (step s (ClickMoveToStage2 true))) = [].
Proof.
  apply filter_none, Forall_lookup_2. intros i it' L.
  assert (i < length (queue s))%nat as B.
  { rewrite <- (step_length s (ClickMoveToStage2 true)) by done.
    by eapply lookup_lt_Some. }
  apply lookup_lt_is_Some in B as [a La].
  rewrite (commit_lookup _ _ _ La) in L. injection L as <-.
  by case_decide.
Qed.

Lemma add_zero (n : JS.Num) :
  JS.add n (JS.Fin 0) = if decide (n = JS.NegZero) then JS.Fin 0 else n.
Proof. by destruct n. Qed.

Lemma add_count_not_NegZero (n : JS.Num) (c : Z) :
  JS.add n (JS.Fin c) ≠ JS.NegZero.
Proof.
  destruct n as [| | | |a]; simpl; try done.
  - unfold JS.round. by repeat case_match.
  - unfold JS.round. by repeat case_match.
Qed.

(** A confirmed [moveToStage2] without a Stage 1 item adds [0] to the
    start index. *)
Lemma commit_empty s :
  stageView Stage1 (queue s) = [] →
  step s (ClickMoveToStage2 true)
  = setStartIndex (λ n, JS.add n (JS.Fin 0)) s.
Proof.
  intros H.
  assert (handle (ClickMoveToStage2 true) s
          = setStartIndex (λ n, JS.add n (JS.Fin 0)) s) as E.
  { simpl handle. unfold stageView in H. rewrite H. simpl.
    unfold setStartIndex, setQueue. simpl. rewrite map_unchanged; [done|].
    apply filter_empty_Forall in H. eapply Forall_impl; [exact H|].
    intros it Hit. simpl. by rewrite decide_False. }
  unfold step. rewrite E. unfold rerender. case_decide; [done|].
  unfold previewEffect, setQueue. simpl. by rewrite recompute_no_stage1.
Qed.

Lemma commit_nothing (ok : bool) s :
  stageView Stage1 (queue s) = [] → startIndex s ≠ JS.NegZero →
  step s (ClickMoveToStage2 ok) = s.
Proof.
  intros H Z. destruct ok; [|apply rerender_same].
  rewrite commit_empty by done. unfold setStartIndex.
  rewrite add_zero, decide_False by done. apply state_eta.
Qed.

Lemma commit_startIndex s :
  startIndex (step s (ClickMoveToStage2 true))
  = JS.add (startIndex s)
      (JS.Fin (Z.of_nat (length (stageView Stage1 (queue s))))).
Proof. unfold step, rerender. by case_decide. Qed.

Lemma advance_no_stage2 s :
  stageView Stage2 (queue (reply true (moveToStage3 s))) = [].
Proof.
  rewrite moveToStage3_queue. apply filter_none, Forall_fmap, Forall_forall.
  intros it _. simpl. case_decide; simpl; congruence.
Qed.

Lemma advance_nothing (ok : bool) s :
  stageView Stage2 (queue s) = [] → reply ok (moveToStage3 s) = s.
Proof.
  intros H. apply filter_empty_Forall in H.
  unfold moveToStage3.
  assert (existsb (λ i, bool_decide (stage i = Stage2)
                        && negb (JS.truthy (temperature i))) (queue s) = false) as ->.
  { apply not_true_is_false. rewrite existsb_exists. intros (it & I & E).
    apply andb_prop in E as [E _]. apply bool_decide_eq_true in E.
    apply list_elem_of_In in I. by apply (proj1 (Forall_forall _ _) H it I). }
  simpl. apply setQueue_same, map_unchanged.
  eapply Forall_impl; [exact H|]. intros it Hit. simpl. by rewrite decide_False.
Qed.

End Handlers.

(** ** Configuration, columns, notices *)

Section Configuration.

Implicit Types (q : list FileQueueItem) (s : State) (e : Event).

Lemma rerender_config s s' :
  prefix (rerender s s') = prefix s' ∧ startIndex (rerender s s') = startIndex s'
  ∧ filterSuffix (rerender s s') = filterSuffix s'
  ∧ onlyFilter (rerender s s') = onlyFilter s'.
Proof. unfold rerender. by case_decide. Qed.

Lemma moveToStage3_config (ok : bool) s :
  let s' := reply ok (moveToStage3 s) in
  prefix s' = prefix s ∧ startIndex s' = startIndex s
  ∧ filterSuffix s' = filterSuffix s ∧ onlyFilter s' = onlyFilter s.
Proof. unfold moveToStage3. destruct ok; by case_match. Qed.

Lemma step_startIndex s e :
  keepsStartIndex e →
  startIndex (step s e) = startIndex s
  ∨ ∃ k : nat, startIndex (step s e) = JS.add (startIndex s) (JS.Fin (Z.of_nat k)).
Proof.
  intros K. unfold step. destruct (rerender_config s (handle e s)) as (_ & -> & _).
  destruct e as [v|v|v|b|random files|[]|ok|id value|id]; try done;
    try (by left).
  - left. unfold handle.
    by destruct (processFiles_config true random files s) as (_ & -> & _).
  - right. eexists. simpl. reflexivity.
  - left. unfold handle.
    by destruct (moveToStage3_config ok s) as (_ & -> & _).
Qed.

Lemma step_isDouble s e :
  keepsStartIndex e → JS.isDouble (startIndex s) → JS.isDouble (startIndex (step s e)).
Proof.
  intros K D. destruct (step_startIndex s e K) as [-> | [k ->]]; [done|].
  by apply add_isDouble.
Qed.

Lemma step_notBelow s e :
  keepsStartIndex e → JS.isDouble (startIndex s) →
  JS.notBelow (startIndex s) (startIndex (step s e)).
Proof.
  intros K D. destruct (step_startIndex s e K) as [-> | [k ->]].
  - apply notBelow_refl.
  - apply add_notBelow; [done|lia].
Qed.

Lemma step_prefix s e :
  (∀ v, e ≠ ChangePrefix v) → prefix (step s e) = prefix s.
Proof.
  intros K. unfold step. destruct (rerender_config s (handle e s)) as (-> & _).
  destruct e as [v|v|v|b|random files|[]|ok|id value|id]; try done.
  - by destruct (K v).
  - unfold handle. by destruct (processFiles_config true random files s) as (-> & _).
  - unfold handle. by destruct (moveToStage3_config ok s) as (-> & _).
Qed.

(** The three columns together hold every item once. *)
Lemma views_partition q :
  (stageView Stage1 q ++ stageView Stage2 q ++ stageView Stage3 q)%list ≡ₚ q.
Proof.
  unfold stageView. induction q as [|it q IH]; [done|].
  rewrite !filter_cons. destruct (stage it) eqn:E; simpl.
  - by f_equiv.
  - rewrite <- Permutation_middle. by f_equiv.
  - rewrite app_assoc, <- Permutation_middle, <- app_assoc. by f_equiv.
Qed.

(** *** The notices of [processFiles] *)

Lemma processFiles_no_image (ok : bool) random files s :
  files ≠ [] → filter (λ f, isImageFile f) files = [] →
  processFiles random files s = Alert "No valid image files (JPG, PNG) found." (Ret s).
Proof.
  intros Hf Hi. unfold processFiles. rewrite Hi. simpl. by destruct files.
Qed.

Lemma processFiles_state (ok : bool) random files s :
  reply ok (processFiles random files s)
  = setQueue (λ prev, (prev ++ filteredFiles random files s)%list) s.
Proof.
  pose proof (processFiles_queue ok random files s) as Q.
  destruct (processFiles_config ok random files s) as (P & I & F & O).
  destruct (reply ok (processFiles random files s)); simpl in *.
  unfold setQueue. by rewrite Q, P, I, F, O.
Qed.

Lemma processFiles_alerts (ok : bool) random files s :
  alerts ok (processFiles random files s)
  = if decide (files ≠ [] ∧ filter (λ f, isImageFile f) files = [])
    then ["No valid image files (JPG, PNG) found."]
    else if decide (filter (λ f, isImageFile f) files ≠ []
                    ∧ filteredFiles random files s = [])
         then ["No files found in folders ending with " ++ dquote
               ++ filterSuffix s ++ dquote ++ "."]
         else [].
Proof.
  unfold processFiles, filteredFiles.
  destruct (filter (λ f, isImageFile f) files) as [|f fs] eqn:E.
  - destruct files as [|f0 files].
    + rewrite decide_False by (intros [? _]; done).
      rewrite decide_False by (intros [? _]; done).
      simpl. by destruct (onlyFilter s).
    + by rewrite decide_True.
  - rewrite decide_False by (intros [_ ?]; done).
    simpl length at 1. simpl Nat.eqb at 1. simpl andb at 1. cbv iota.
    set (news := imap (λ k f0, newItem (random k) f0) (f :: fs)).
    assert ((0 <? length news)%nat = true) as ->.
    { unfold news. by rewrite imap_cons. }
    rewrite andb_true_r.
    destruct (if onlyFilter s then _ else news) as [|x l] eqn:F.
    + by rewrite decide_True.
    + rewrite decide_False by (intros [_ ?]; done). done.
Qed.

End Configuration.

(** ** Numerals and the manifest path *)

Section Numerals.

Lemma allNumeral_append (x y : string) :
  allNumeral (x ++ y) = allNumeral x && allNumeral y.
Proof.
  induction x as [|a x IH]; simpl; [done|]. by rewrite IH, andb_assoc.
Qed.

Lemma pretty_N_char_numeral (d : N) : isNumeralChar (pretty_N_char d) = true.
Proof. unfold pretty_N_char. by repeat case_match. Qed.

Lemma pretty_N_go_numeral (x : N) (s : string) :
  allNumeral (pretty_N_go x s) = allNumeral s.
Proof.
  revert s. induction (N.lt_wf_0 x) as [x _ IH]; intros s.
  destruct (N.eq_0_gt_0_cases x) as [->|Hx].
  - by rewrite pretty_N_go_0.
  - rewrite pretty_N_go_step by done. rewrite IH by by apply N.div_lt.
    simpl. by rewrite pretty_N_char_numeral.
Qed.

Lemma numeral_allNumeral (n : Z) : allNumeral (JS.numeral n) = true.
Proof.
  unfold JS.numeral, pretty, pretty_Z. destruct n as [|x|x]; [done|..].
  - unfold pretty, pretty_positive, pretty, pretty_N. case_decide; [done|].
    by rewrite pretty_N_go_numeral.
  - unfold pretty, pretty_positive, pretty, pretty_N. case_decide; [done|].
    rewrite allNumeral_append, pretty_N_go_numeral. done.
Qed.

Lemma numeral_nonempty (n : Z) : JS.numeral n ≠ "".
Proof.
  destruct (decide (n = 0)) as [->|H]; [done|].
  by destruct (numeral_head n H) as (c & t & -> & _).
Qed.

Lemma padStart_numeral (n : Z) :
  allNumeral (JS.padStart 3 "0" (JS.numeral n)) = true
  ∧ JS.padStart 3 "0" (JS.numeral n) ≠ "".
Proof.
  unfold JS.padStart. split.
  - rewrite allNumeral_append, numeral_allNumeral, andb_true_r.
    induction (3 - String.length (JS.numeral n))%nat; simpl; auto.
  - pose proof (numeral_nonempty n) as H.
    destruct (JS.replicate _ _); [done|]. done.
Qed.

Lemma dotAfterNumeral_here (x e : string) :
  allNumeral x = true → x ≠ "" → dotAfterNumeral (x ++ String "." e) = true.
Proof.
  induction x as [|c x IH]; [done|]. intros A _.
  simpl in A. apply andb_prop in A as [Hc Hx].
  destruct x as [|c' x].
  - simpl. by rewrite Hc.
  - change (dotAfterNumeral (String c (String c' (x ++ String "." e))) = true).
    simpl. rewrite orb_true_iff. right. by apply IH.
Qed.

Lemma dotAfterNumeral_later (p x e : string) :
  allNumeral x = true → x ≠ "" → dotAfterNumeral (p ++ x ++ String "." e) = true.
Proof.
  intros A N. induction p as [|a p IH]; [by apply dotAfterNumeral_here|].
  change (dotAfterNumeral (String a (p ++ x ++ String "." e)) = true).
  destruct (p ++ x ++ String "." e) as [|b r] eqn:E; [done|].
  simpl. rewrite orb_true_iff. by right.
Qed.

(** No composed name is the path of the manifest. *)
Lemma previewAt_not_manifest (p : string) (n : Z) (it : FileQueueItem) :
  JS.exact n → previewAt p (JS.Fin n) it ≠ "data_summary.csv".
Proof.
  intros Hn E. destruct (padStart_numeral n) as [A N].
  pose proof (dotAfterNumeral_later p _ (getExtension (originalName it)) A N) as D.
  unfold previewAt in E. rewrite toString_safe in E by done.
  simpl in E. rewrite E in D. vm_compute in D. discriminate.
Qed.

End Numerals.

(** ** The archive of a reachable state *)

Section Download.

Implicit Types (q : list FileQueueItem) (s : State).

Lemma handleDownload_eq s :
  handleDownload s
  = if decide (stageView Stage3 (queue s) = []) then None
    else Some (generateZipPackage (stageView Stage3 (queue s))).
Proof.
  unfold handleDownload, stageView.
  destruct (filter _ (queue s)) as [|x l];
    [by rewrite decide_True | by rewrite decide_False].
Qed.

Lemma wellFormed_eligible q :
  Forall wellFormed q →
  filter (λ it, JS.truthy (newName it)) (stageView Stage3 q) = stageView Stage3 q.
Proof.
  intros H. apply filter_all, Forall_forall.
  intros it [E I]%list_elem_of_filter.
  destruct (proj1 (Forall_forall _ _) H it I) as (_ & _ & _ & _ & _ & L).
  apply Is_true_true, L. congruence.
Qed.

Lemma countChar_append (c : ascii) (x y : string) :
  countChar c (x ++ y) = (countChar c x + countChar c y)%nat.
Proof. induction x as [|a x IH]; simpl; [done|]. rewrite IH. lia. Qed.

Lemma countChar_absent (c : ascii) (x : string) :
  JS.includes c x = false → countChar c x = 0%nat.
Proof.
  induction x as [|a x IH]; simpl; [done|]. intros H.
  apply orb_false_iff in H as [-> H]. by rewrite IH.
Qed.

End Download.

(** ** Letter case *)

Section LetterCase.

Lemma lower_dot (a : ascii) : Ascii.eqb (JS.lower a) "." = Ascii.eqb a ".".
Proof. by destruct a as [[] [] [] [] [] [] [] []]. Qed.

Lemma lastIndexOf_from_lower (s : string) (i acc : Z) :
  JS.lastIndexOf_from "." (JS.toLowerCase s) i acc = JS.lastIndexOf_from "." s i acc.
Proof.
  revert i acc; induction s as [|a s IH]; intros i acc; simpl; [done|].
  by rewrite lower_dot, IH.
Qed.

Lemma length_toLowerCase (s : string) :
  String.length (JS.toLowerCase s) = String.length s.
Proof. induction s as [|a s IH]; simpl; [done|]. by rewrite IH. Qed.

Lemma drop_toLowerCase (n : nat) (s : string) :
  JS.drop n (JS.toLowerCase s) = JS.toLowerCase (JS.drop n s).
Proof. revert s; induction n as [|n IH]; intros [|a s]; simpl; auto. Qed.

Lemma getExtension_lower (s : string) :
  getExtension (JS.toLowerCase s) = JS.toLowerCase (getExtension s).
Proof.
  unfold getExtension, JS.lastIndexOf, JS.slice, JS.len.
  rewrite lastIndexOf_from_lower, length_toLowerCase. apply drop_toLowerCase.
Qed.

End LetterCase.

(** * Further properties, stated *)

(** X1. The extension is always a suffix of the file name: the name is
    some text followed by the extension, for every name. *)
Theorem X1_getExtension_is_suffix (filename : string) :
  (∃ p, filename = p ++ getExtension filename)
  ∧ JS.endsWith filename (getExtension filename) = true.
Proof.
  assert (∃ p, filename = p ++ getExtension filename) as H.
  { unfold getExtension, JS.slice. apply drop_split. }
  split; [done|]. by apply endsWith_spec.
Qed.

(** X2. A file that passes the extension test of [isImageFile] and whose
    name (shorter than 2^32 characters) has some text in front of the
    matched extension keeps an image extension, up to letter case, in its
    composed name. A file whose whole name is the extension (as ".png")
    passes the test too and has the empty extension. *)
Theorem X2_image_extension_kept (fileName : string) :
  JS.len fileName < 2 ^ 32 →
  imageExtensionTest fileName = true →
  JS.toLowerCase (getExtension fileName) ∈ ["jpg"; "jpeg"; "png"; "webp"]
  ∨ (JS.toLowerCase fileName ∈ [".jpg"; ".jpeg"; ".png"; ".webp"]
     ∧ getExtension fileName = "").
Proof.
  intros B T.
  assert (JS.len (JS.toLowerCase fileName) < 2 ^ 32) as B'.
  { unfold JS.len in *. by rewrite length_toLowerCase. }
  assert (∀ ext : string,
            JS.includes "." ext = false →
            JS.endsWith (JS.toLowerCase fileName) (String "." ext) = true →
            JS.toLowerCase (getExtension fileName) = ext
            ∨ (JS.toLowerCase fileName = String "." ext
               ∧ getExtension fileName = "")) as K.
  { intros ext He [p Hp]%endsWith_spec. rewrite <- getExtension_lower.
    destruct p as [|a p].
    - right. split; [done|].
      assert (JS.toLowerCase (getExtension fileName) = "") as Z.
      { rewrite <- getExtension_lower.
        by apply (getExtension_leading_dot _ B' ext). }
      by destruct (getExtension fileName).
    - left. by apply (getExtension_inner_dot _ B' (String a p) ext). }
  unfold imageExtensionTest in T.
  repeat (apply orb_prop in T as [T|T]).
  - destruct (K "jpg" eq_refl T) as [->|[-> ?]]; [left|right; split; [|done]];
      pick_member.
  - destruct (K "jpeg" eq_refl T) as [->|[-> ?]]; [left|right; split; [|done]];
      pick_member.
  - destruct (K "png" eq_refl T) as [->|[-> ?]]; [left|right; split; [|done]];
      pick_member.
  - destruct (K "webp" eq_refl T) as [->|[-> ?]]; [left|right; split; [|done]];
      pick_member.
Qed.

Lemma X2_image_extension_kept_witness :
  JS.toLowerCase (getExtension "IMG_0042.JPeG") ∈ ["jpg"; "jpeg"; "png"; "webp"]
  ∨ (JS.toLowerCase "IMG_0042.JPeG" ∈ [".jpg"; ".jpeg"; ".png"; ".webp"]
     ∧ getExtension "IMG_0042.JPeG" = "").
Proof.
  apply X2_image_extension_kept.
  - vm_compute. reflexivity.
  - vm_compute. reflexivity.
Defined.

(** X3. [isImageFile] accepts a file exactly when its type is one of the
    four listed MIME types or its name, lower-cased, is some text followed
    by .jpg, .jpeg, .png or .webp. Two files of the same type whose names
    differ in letter case only get the same answer. *)
Theorem X3_isImageFile_accepts :
  (∀ f : File,
     isImageFile f = true
     ↔ type f ∈ ["image/jpeg"; "image/png"; "image/jpg"; "image/webp"]
       ∨ ∃ p ext, ext ∈ [".jpg"; ".jpeg"; ".png"; ".webp"]
                  ∧ JS.toLowerCase (name f) = p ++ ext)
  ∧ (∀ f g : File,
       type f = type g → JS.toLowerCase (name f) = JS.toLowerCase (name g) →
       isImageFile f = isImageFile g).
Proof.
  split.
  - intros f. unfold isImageFile, imageExtensionTest, validTypes.
    rewrite !orb_true_iff, bool_decide_eq_true, !endsWith_spec. split.
    + intros [H|[[[[p H]|[p H]]|[p H]]|[p H]]]; [by left|right..];
        exists p; eexists; (split; [|exact H]); pick_member.
    + intros [H|(p & ext & I & H)]; [by left|right].
      repeat (apply elem_of_cons in I as [->|I]); [..|by apply elem_of_nil in I];
        eauto 6.
  - intros f g Ht Hn. unfold isImageFile, imageExtensionTest. by rewrite Ht, Hn.
Qed.

Lemma X3_isImageFile_accepts_witness :
  isImageFile (mkFile "Scan.PNG" "" "siteA-1/Scan.PNG" [])
  = isImageFile (mkFile "scan.png" "" "elsewhere/scan.png" []).
Proof.
  apply (proj2 X3_isImageFile_accepts); reflexivity.
Defined.

(** X4. The folder name of a file is the path segment in front of the
    file's own segment: for a path with no slash it is the word Root, and
    for a path that ends in [dir/base], with no slash in [dir] or [base],
    it is [dir], whatever comes before. *)
Theorem X4_folderNameOf_parent (f : File) :
  (JS.includes "/" (webkitRelativePath f) = false → folderNameOf f = "Root")
  ∧ (∀ dir base : string,
       JS.includes "/" dir = false → JS.includes "/" base = false →
       webkitRelativePath f = dir ++ "/" ++ base → folderNameOf f = dir)
  ∧ (∀ front dir base : string,
       JS.includes "/" dir = false → JS.includes "/" base = false →
       webkitRelativePath f = front ++ "/" ++ dir ++ "/" ++ base →
       folderNameOf f = dir).
Proof.
  split; [apply folderNameOf_root|]. split.
  - intros dir base Hd Hb E. apply (folderNameOf_parts f [] dir base).
    rewrite E. simpl. by rewrite split_append, (split_free _ _ Hd), (split_free _ _ Hb).
  - intros front dir base Hd Hb E.
    apply (folderNameOf_parts f (JS.split "/" front) dir base).
    rewrite E. simpl.
    by rewrite !split_append, (split_free _ _ Hd), (split_free _ _ Hb).
Qed.

Lemma X4_folderNameOf_parent_witness :
  folderNameOf (mkFile "a.jpg" "image/jpeg" "2024/survey/siteA-1/a.jpg" [])
  = "siteA-1".
Proof.
  apply (proj2 (proj2 (X4_folderNameOf_parent
           (mkFile "a.jpg" "image/jpeg" "2024/survey/siteA-1/a.jpg" [])))
           "2024/survey" "siteA-1" "a.jpg"); reflexivity.
Defined.

(** X5. [processFiles] shows the type notice exactly when a non-empty
    selection has no image file, the folder notice exactly when it has
    image files and the filter drops them all, and no notice otherwise.
    When nothing is accepted the whole state is left as it was; otherwise
    the queue grows by the number of accepted files. [handleFileSelect]
    and [handleDrop] behave as [processFiles] on every selection, the
    empty one included. *)
Theorem X5_processFiles_notices (random : nat → string) (files : list File)
    (s : State) :
  alerts true (processFiles random files s)
  = (if decide (files ≠ [] ∧ filter (λ f, isImageFile f) files = [])
     then ["No valid image files (JPG, PNG) found."]
     else if decide (filter (λ f, isImageFile f) files ≠ []
                     ∧ filteredFiles random files s = [])
          then ["No files found in folders ending with " ++ dquote
                ++ filterSuffix s ++ dquote ++ "."]
          else [])
  ∧ (filteredFiles random files s = [] → step s (SelectFiles random files) = s)
  ∧ length (queue (step s (SelectFiles random files)))
    = (length (queue s) + length (filteredFiles random files s))%nat
  ∧ (∀ ok, reply ok (handleFileSelect random files s)
           = reply ok (processFiles random files s)
           ∧ alerts ok (handleFileSelect random files s)
             = alerts ok (processFiles random files s)
           ∧ handleDrop random files s = handleFileSelect random files s).
Proof.
  split; [apply processFiles_alerts|]. split; [|split].
  - intros E. unfold step, handle. rewrite processFiles_state, E.
    rewrite setQueue_same by apply app_nil_r. apply rerender_same.
  - destruct (select_step random files s) as (olds & news & -> & Ho & Hn).
    rewrite length_app. by rewrite (Forall2_length _ _ _ Ho), (Forall2_length _ _ _ Hn).
  - intros ok. unfold handleDrop, handleFileSelect. destruct files as [|f files].
    + simpl Nat.ltb. cbv iota. split; [|split; [|done]].
      * rewrite processFiles_state.
        assert (filteredFiles random [] s = []) as ->
          by (unfold filteredFiles; by destruct (onlyFilter s)).
        simpl. by rewrite setQueue_same by apply app_nil_r.
      * rewrite processFiles_alerts.
        rewrite decide_False by (intros [? _]; done).
        by rewrite decide_False by (intros [? _]; done).
    + done.
Qed.

Lemma X5_processFiles_notices_witness :
  step initial (SelectFiles (counting 0) [photo "siteA-2" "b.jpg"]) = initial.
Proof.
  apply (proj1 (proj2 (X5_processFiles_notices (counting 0)
                         [photo "siteA-2" "b.jpg"] initial))).
  reflexivity.
Defined.

(** X6. Removing an identifier that no item has leaves the whole state as
    it was. After a removal no item has the removed identifier, so a
    second removal of it changes nothing; the configuration is never
    touched. *)
Theorem X6_removeItem_edge_cases (id : string) (s : State) :
  (Forall (λ it, item_id it ≠ id) (queue s) → step s (ClickRemove id) = s)
  ∧ Forall (λ it, item_id it ≠ id) (queue (step s (ClickRemove id)))
  ∧ step (step s (ClickRemove id)) (ClickRemove id) = step s (ClickRemove id)
  ∧ prefix (step s (ClickRemove id)) = prefix s
  ∧ startIndex (step s (ClickRemove id)) = startIndex s.
Proof.
  split; [apply removeItem_absent|]. split; [apply removeItem_gone|].
  split; [apply removeItem_absent, removeItem_gone|].
  unfold step. by destruct (rerender_config s (handle (ClickRemove id) s)) as (-> & -> & _).
Qed.

Lemma X6_removeItem_edge_cases_witness :
  let s := run initial [SelectFiles (counting 0) batchA] in
  step s (ClickRemove "no-such-id") = s.
Proof.
  intros s. apply (proj1 (X6_removeItem_edge_cases "no-such-id" s)).
  vm_compute. repeat constructor; discriminate.
Defined.

(** X7. A temperature edit changes the temperature and the status of the
    items with the given identifier and nothing else; the status becomes
    success for a non-empty value and idle for the empty one. For an
    identifier no item has, the state is left as it was. Of two edits of
    one identifier the later one wins, and edits of different identifiers
    can be swapped. The preview effect does not run. *)
Theorem X7_updateTemperature_edits (id value : string) (s : State) :
  step s (EditTemperature id value) = updateTemperature id value s
  ∧ Forall2 (λ it it',
       if decide (item_id it = id)
       then temperature it' = Some value
            ∧ status it' = (if String.eqb value "" then idle else success)
            ∧ item_id it' = item_id it ∧ file it' = file it
            ∧ originalName it' = originalName it ∧ folderName it' = folderName it
            ∧ stage it' = stage it ∧ newName it' = newName it
            ∧ previewName it' = previewName it
       else it' = it)
      (queue s) (queue (step s (EditTemperature id value)))
  ∧ (Forall (λ it, item_id it ≠ id) (queue s) →
     step s (EditTemperature id value) = s)
  ∧ (∀ earlier : string,
       step (step s (EditTemperature id earlier)) (EditTemperature id value)
       = step s (EditTemperature id value))
  ∧ (∀ id' value' : string,
       id ≠ id' →
       step (step s (EditTemperature id value)) (EditTemperature id' value')
       = step (step s (EditTemperature id' value')) (EditTemperature id value)).
Proof.
  split; [apply step_edit|]. split; [|split; [|split]].
  - rewrite step_edit. unfold updateTemperature. simpl.
    apply Forall2_fmap_r, Forall_Forall2_diag, Forall_forall. intros it _. simpl.
    destruct (decide (item_id it = id)); [|done]. simpl.
    by destruct (String.eqb value "").
  - intros H. rewrite step_edit. by apply updateTemperature_absent.
  - intros earlier. rewrite !step_edit. apply updateTemperature_twice.
  - intros id' value' D. rewrite !step_edit. by apply updateTemperature_comm.
Qed.

Lemma X7_updateTemperature_edits_witness :
  let s := run initial [SelectFiles (counting 0) batchA; ClickMoveToStage2 true] in
  step (step s (EditTemperature "0" "23.5")) (EditTemperature "1" "24")
  = step (step s (EditTemperature "1" "24")) (EditTemperature "0" "23.5").
Proof.
  intros s.
  apply (proj2 (proj2 (proj2 (proj2 (X7_updateTemperature_edits "0" "23.5" s))))).
  discriminate.
Defined.

(** X8. The three columns of the page hold every item of the queue
    exactly once: put one after the other they are a permutation of the
    queue, and their sizes add up to its length. *)
Theorem X8_columns_partition_queue (q : list FileQueueItem) :
  (stageView Stage1 q ++ stageView Stage2 q ++ stageView Stage3 q)%list ≡ₚ q
  ∧ (length (stageView Stage1 q) + length (stageView Stage2 q)
     + length (stageView Stage3 q))%nat = length q.
Proof.
  split; [apply views_partition|].
  rewrite <- (Permutation_length (views_partition q)), !length_app. lia.
Qed.

Lemma stageView_recompute (g : Stage) (p : string) (n : JS.Num) (q : list FileQueueItem) :
  g ≠ Stage1 → stageView g (recomputePreviews p n q) = stageView g q.
Proof.
  intros G. unfold stageView.
  revert n; induction q as [|it q IH]; intros n; simpl; [done|].
  destruct (decide (stage it = Stage1)) as [E|E].
  - rewrite !filter_cons. simpl. rewrite !decide_False by congruence. apply IH.
  - rewrite !filter_cons. by rewrite IH.
Qed.

Lemma stageView_map (g : Stage) (f : FileQueueItem → FileQueueItem)
    (q : list FileQueueItem) :
  (∀ it, stage (f it) = g ↔ stage it = g) → (∀ it, stage it = g → f it = it) →
  stageView g (map f q) = stageView g q.
Proof.
  intros Hs Hf. unfold stageView. induction q as [|it q IH]; simpl; [done|].
  rewrite !filter_cons. destruct (decide (stage it = g)) as [E|E].
  - rewrite decide_True by by apply Hs. by rewrite IH, Hf.
  - rewrite decide_False by by rewrite Hs. done.
Qed.

Lemma stageView_rerender (g : Stage) (s s' : State) :
  g ≠ Stage1 → stageView g (queue (rerender s s')) = stageView g (queue s').
Proof.
  intros G. unfold rerender. case_decide; [done|].
  unfold previewEffect. simpl. by apply stageView_recompute.
Qed.

(** X9. A confirmed [moveToStage2] leaves no Stage 1 item, keeps the
    length of the queue and returns the Stage 3 column as it is. Declining
    the question, or confirming when the Stage 1 column is empty, leaves
    the whole state as it was, with one exception: the sum [-0 + 0] turns
    a start index [-0] into [0]. A second click right after a confirmed
    one changes nothing. *)
Theorem X9_moveToStage2_edge_cases (s : State) :
  let s' := step s (ClickMoveToStage2 true) in
  stageView Stage1 (queue s') = []
  ∧ length (queue s') = length (queue s)
  ∧ stageView Stage3 (queue s') = stageView Stage3 (queue s)
  ∧ step s (ClickMoveToStage2 false) = s
  ∧ (stageView Stage1 (queue s) = [] → startIndex s ≠ JS.NegZero → s' = s)
  ∧ (stageView Stage1 (queue s) = [] → startIndex s = JS.NegZero →
     s' = setStartIndex (λ _, JS.Fin 0) s)
  ∧ (∀ ok, step s' (ClickMoveToStage2 ok) = s').
Proof.
  intros s'. split; [apply commit_no_stage1|]. split; [by apply step_length|].
  split; [|split; [apply rerender_same|split; [|split]]].
  - unfold s', step. rewrite stageView_rerender by done.
    unfold handle. rewrite moveToStage2_queue. apply stageView_map.
    + intros it. case_decide as E; [|done]. simpl. rewrite E. split; discriminate.
    + intros it E. rewrite decide_False; [done|]. congruence.
  - apply commit_nothing.
  - intros H Z. unfold s'. rewrite commit_empty by done.
    unfold setStartIndex. by rewrite Z.
  - intros ok. apply commit_nothing; [apply commit_no_stage1|].
    unfold s'. rewrite commit_startIndex. apply add_count_not_NegZero.
Qed.

Lemma X9_moveToStage2_edge_cases_witness :
  let s := run initial [SelectFiles (counting 0) batchA; ClickMoveToStage2 true] in
  step s (ClickMoveToStage2 true) = s.
Proof.
  intros s.
  destruct (X9_moveToStage2_edge_cases s) as (_ & _ & _ & _ & H & _).
  apply H; [reflexivity|discriminate].
Defined.

(** X10. Once [moveToStage3] proceeds, no Stage 2 item is left, the
    Stage 1 column is as it was and the queue has the same length. With an
    empty Stage 2 column the handler asks nothing and leaves the whole
    state as it was, so a second click right after changes nothing. *)
Theorem X10_moveToStage3_edge_cases (s : State) :
  let s' := step s (ClickMoveToStage3 true) in
  stageView Stage2 (queue s') = []
  ∧ stageView Stage1 (queue s') = stageView Stage1 (queue s)
  ∧ length (queue s') = length (queue s)
  ∧ (stageView Stage2 (queue s) = [] →
     ∀ ok, step s (ClickMoveToStage3 ok) = s ∧ confirms ok (moveToStage3 s) = [])
  ∧ (∀ ok, step s' (ClickMoveToStage3 ok) = s').
Proof.
  intros s'. unfold s'. rewrite step_stage3.
  assert (∀ t ok, stageView Stage2 (queue t) = [] →
            step t (ClickMoveToStage3 ok) = t ∧ confirms ok (moveToStage3 t) = [])
    as Idle.
  { intros t ok H. rewrite step_stage3. split; [by apply advance_nothing|].
    apply filter_empty_Forall in H. unfold moveToStage3.
    assert (existsb (λ i, bool_decide (stage i = Stage2)
                          && negb (JS.truthy (temperature i))) (queue t) = false)
      as ->; [|done].
    apply not_true_is_false. rewrite existsb_exists. intros (it & I & E).
    apply andb_prop in E as [E _]. apply bool_decide_eq_true in E.
    apply list_elem_of_In in I. by apply (proj1 (Forall_forall _ _) H it I). }
  split; [apply advance_no_stage2|]. split; [|split; [|split]].
  - rewrite moveToStage3_queue. apply stageView_map.
    + intros it. case_decide as E; [|done]. simpl. rewrite E. split; discriminate.
    + intros it E. rewrite decide_False; [done|]. congruence.
  - rewrite moveToStage3_queue. apply length_map.
  - intros H ok. by apply Idle.
  - intros ok. apply Idle, advance_no_stage2.
Qed.

Lemma X10_moveToStage3_edge_cases_witness :
  let s := run initial [SelectFiles (counting 0) batchA] in
  step s (ClickMoveToStage3 true) = s ∧ confirms true (moveToStage3 s) = [].
Proof.
  intros s.
  destruct (X10_moveToStage3_edge_cases s) as (_ & _ & _ & H & _).
  apply H. reflexivity.
Defined.

(** X11. The start index never goes down unless the user edits it: over
    any sequence of other events it stays or grows ([NaN] stays [NaN]),
    for every start index that is a double. The prefix is changed by its
    own input only. *)
Theorem X11_cursor_only_advances :
  (∀ (events : list Event) (s : State),
     JS.isDouble (startIndex s) → Forall keepsStartIndex events →
     JS.notBelow (startIndex s) (startIndex (run s events)))
  ∧ (∀ (events : list Event) (s : State),
       Forall (λ e, ∀ v, e ≠ ChangePrefix v) events →
       prefix (run s events) = prefix s).
Proof.
  split.
  - intros events. induction events as [|e events IH]; intros s D K;
      [apply notBelow_refl|].
    inversion_clear K as [|?? Ke Kr]. simpl.
    eapply notBelow_trans; [by apply step_notBelow|].
    apply IH; [by apply step_isDouble|done].
  - intros events. induction events as [|e events IH]; intros s K; [done|].
    inversion_clear K as [|?? Ke Kr]. simpl.
    by rewrite (IH _ Kr), step_prefix.
Qed.

Lemma X11_cursor_only_advances_witness :
  JS.notBelow (startIndex initial)
    (startIndex (run initial [SelectFiles (counting 0) batchA; ClickMoveToStage2 true;
                              ClickRemove "1"; ChangePrefix "x"])).
Proof.
  apply (proj1 X11_cursor_only_advances).
  - vm_compute. reflexivity.
  - repeat constructor.
Defined.

(** ** Files are carried, not made *)

Section Provenance.

Implicit Types (q : list FileQueueItem) (s : State) (e : Event).

Lemma persists_files q q' : Forall2 persists q q' → map file q' = map file q.
Proof.
  induction 1 as [|it it' q q' (_ & F & _) _ IH]; [done|]. simpl. by rewrite F, IH.
Qed.

Lemma handle_files s e :
  map file (queue (handle e s))
  `sublist_of` (map file (queue s) ++ selectedBy e)%list.
Proof.
  destruct e as [v|v|v|b|random files|[]|ok|id value|id];
    try (simpl; by rewrite app_nil_r).
  - unfold handle. rewrite processFiles_queue, map_app.
    apply sublist_app; [done|]. rewrite filteredFiles_files. apply sublist_filter.
  - unfold handle. rewrite moveToStage2_queue. simpl selectedBy. rewrite app_nil_r.
    rewrite (persists_files (queue s)); [done|].
    apply Forall2_persists_map, persists_lock.
  - unfold handle. simpl selectedBy. rewrite app_nil_r.
    destruct (moveToStage3_declined s) as [E|E]; destruct ok; rewrite ?E; try done;
      rewrite moveToStage3_queue;
      (rewrite (persists_files (queue s)); [done|]);
      apply Forall2_persists_map, persists_advance.
  - unfold handle, updateTemperature. simpl. rewrite app_nil_r.
    rewrite (persists_files (queue s)); [done|].
    apply Forall2_persists_map, persists_edit.
  - simpl. rewrite app_nil_r. apply sublist_map, sublist_filter.
Qed.

Lemma step_files s e :
  map file (queue (step s e))
  `sublist_of` (map file (queue s) ++ selectedBy e)%list.
Proof.
  unfold step. rewrite (persists_files _ _ (rerender_persists s (handle e s))).
  apply handle_files.
Qed.

Lemma run_files events s :
  map file (queue (run s events))
  `sublist_of` (map file (queue s) ++ selectedFiles events)%list.
Proof.
  revert s; induction events as [|e events IH]; intros s.
  - simpl. by rewrite app_nil_r.
  - simpl run. etrans; [apply IH|]. unfold selectedFiles. simpl.
    rewrite app_assoc. apply sublist_app; [apply step_files|done].
Qed.

End Provenance.

(** X12. Between events the previews are up to date: in every state
    reached from the initial one, the [k]-th Stage 1 item carries the name
    composed from the current prefix and the start index incremented [k]
    times, which for an integer start index [z] with room below [2^53] is
    the number [z + k]. The dependencies of the effect cover every change
    of the Stage 1 items. *)
Theorem X12_previews_always_current (events : list Event) :
  let s := run initial events in
  map previewName (stageView Stage1 (queue s))
  = imap (λ k it, Some (prefix s
                        ++ JS.padStart 3 "0"
                             (JS.toString (cursorAfter k (startIndex s)))
                        ++ "." ++ getExtension (originalName it)))
         (stageView Stage1 (queue s))
  ∧ (∀ z : Z,
       startIndex s = JS.Fin z → - JS.exactLimit ≤ z →
       z + Z.of_nat (length (stageView Stage1 (queue s))) ≤ JS.exactLimit →
       map previewName (stageView Stage1 (queue s))
       = imap (λ k it, Some (prefix s
                             ++ JS.padStart 3 "0" (JS.numeral (z + Z.of_nat k))
                             ++ "." ++ getExtension (originalName it)))
              (stageView Stage1 (queue s))).
Proof.
  intros s. pose proof (run_settled events initial initial_settled) as H.
  fold s in H. unfold settled in H.
  assert (map previewName (stageView Stage1 (queue s))
          = imap (λ k it, Some (previewAt (prefix s)
                                  (cursorAfter k (startIndex s)) it))
                 (stageView Stage1 (queue s))) as E.
  { rewrite <- H at 1. apply recompute_previews. }
  split; [exact E|].
  intros z Hz Hl Hu. rewrite E. apply imap_ext. intros k it L. simpl.
  apply lookup_lt_Some in L.
  unfold previewAt. rewrite Hz, cursorAfter_safe by lia.
  rewrite toString_safe; [done|]. unfold JS.exact. lia.
Qed.

Lemma X12_previews_always_current_witness :
  let s := run initial [ChangeStartIndex (JS.Fin 5);
                        SelectFiles (counting 0) batchA] in
  map previewName (stageView Stage1 (queue s))
  = [Some "01-005.jpg"; Some "01-006.png"; Some "01-007.webp"].
Proof.
  intros s.
  etrans;
    [exact (proj2 (X12_previews_always_current
                     [ChangeStartIndex (JS.Fin 5); SelectFiles (counting 0) batchA])
              5 eq_refl ltac:(vm_compute; discriminate)
              ltac:(vm_compute; discriminate))|].
  vm_compute. reflexivity.
Defined.

(** X13. In every state reached from the initial one: a Stage 1 item has
    no [newName] and has a preview; an item past Stage 1 has a non-empty
    [newName], which is still equal to its [previewName]. *)
Theorem X13_names_follow_stage (events : list Event) :
  Forall (λ it,
     (stage it = Stage1 → newName it = None ∧ is_Some (previewName it))
     ∧ (stage it ≠ Stage1 →
        newName it = previewName it ∧ ∃ n, newName it = Some n ∧ n ≠ ""))
    (queue (run initial events)).
Proof.
  pose proof (run_settled events initial initial_settled) as Hs.
  pose proof (run_wellFormed events initial initial_settled (Forall_nil_2 _)) as Hw.
  pose proof (settled_previews_defined _ Hs) as Hp.
  eapply Forall_impl; [apply Forall_and; split; [exact Hw|exact Hp]|].
  intros it [(_ & _ & _ & _ & N & L) P]. simpl in P. split.
  - intros E. split; [by apply N|]. destruct (P E) as [n ->]. by eexists.
  - intros E. destruct (L E) as [Q T]. split; [done|].
    unfold JS.truthy in T. destruct (newName it) as [n|]; [|done].
    exists n. split; [done|]. intros ->. done.
Qed.

(** X14. In every state reached from the initial one, the files of the
    queue are files the user selected, in the order of selection, each
    an image file by [isImageFile]; the original name and the folder name
    of an item are those of its file. *)
Theorem X14_items_come_from_selected_files (events : list Event) :
  map file (queue (run initial events)) `sublist_of` selectedFiles events
  ∧ Forall (λ it,
       isImageFile (file it) = true
       ∧ originalName it = name (file it)
       ∧ folderName it = folderNameOf (file it))
      (queue (run initial events)).
Proof.
  split; [apply (run_files events initial)|].
  pose proof (run_wellFormed events initial initial_settled (Forall_nil_2 _)) as Hw.
  eapply Forall_impl; [exact Hw|]. by intros it (O & F & I & _).
Qed.

(** X15. In every state reached from the initial one the status of an
    item is idle or success, never processing or error, and it is success
    only for an item that has a non-empty temperature. *)
Theorem X15_status_idle_or_success (events : list Event) :
  Forall (λ it,
     status it ≠ processing ∧ status it ≠ error
     ∧ (status it = success → ∃ t, temperature it = Some t ∧ t ≠ ""))
    (queue (run initial events)).
Proof.
  pose proof (run_wellFormed events initial initial_settled (Forall_nil_2 _)) as Hw.
  eapply Forall_impl; [exact Hw|]. intros it (_ & _ & _ & S & _).
  destruct S as [E|[E T]]; rewrite E; repeat split; try discriminate.
  intros _. unfold JS.truthy in T. destruct (temperature it) as [t|]; [|done].
  exists t. split; [done|]. intros ->. done.
Qed.

Lemma filter_sublist_weaken {A} (P Q : A → Prop) `{∀ x, Decision (P x)}
    `{∀ x, Decision (Q x)} (l : list A) :
  (∀ x, P x → Q x) → filter P l `sublist_of` filter Q l.
Proof.
  intros W. induction l as [|x l IH]; [done|]. rewrite !filter_cons.
  destruct (decide (P x)) as [p|p].
  - rewrite decide_True by auto. by constructor.
  - destruct (decide (Q x)); [by constructor|done].
Qed.

Lemma empty_queue_numbered (s : State) (z : Z) (room : nat) :
  queue s = [] → startIndex s = JS.Fin z → - JS.exactLimit ≤ z →
  z + Z.of_nat room ≤ JS.exactLimit →
  settled s ∧ numbered z room s.
Proof.
  intros E Hz Hl Hu. split; [unfold settled; by rewrite E|].
  exists z. unfold lockedNames, lockedItems. rewrite E. simpl.
  repeat split; try done; try lia; constructor.
Qed.

(** X16. Starting with an empty queue and an integer start index [z],
    not below [-2^53] and with [z] plus the number of image files selected
    later not above [2^53]: as long as the prefix and the start index are
    not edited, no two locked items of the queue have the same name,
    however many batches were committed and whatever was removed in
    between. *)
Theorem X16_names_distinct_across_batches (s0 : State) (z : Z)
    (events : list Event) :
  queue s0 = [] → startIndex s0 = JS.Fin z → - JS.exactLimit ≤ z →
  z + Z.of_nat (length (drawnIds events)) ≤ JS.exactLimit →
  Forall keepsNaming events →
  NoDup (map newName (filter (λ it, stage it ≠ Stage1) (queue (run s0 events)))).
Proof.
  intros E Hz Hl Hu K.
  destruct (empty_queue_numbered s0 z (length (drawnIds events) + 0) E Hz Hl)
    as [Hs Hn]; [lia|].
  by destruct (numbered_run z 0 events s0 Hs K Hn) as (cur & _ & _ & _ & _ & N).
Qed.

Lemma X16_names_distinct_across_batches_witness :
  NoDup (map newName (filter (λ it, stage it ≠ Stage1)
    (queue (run initial [SelectFiles (counting 0) batchA; ClickMoveToStage2 true;
                         SelectFiles (counting 10) batchB; ClickRemove "10";
                         ClickMoveToStage2 true])))).
Proof.
  apply (X16_names_distinct_across_batches initial 1).
  - reflexivity.
  - reflexivity.
  - vm_compute. discriminate.
  - vm_compute. discriminate.
  - repeat constructor.
Defined.

(** X17. In every state reached from the initial one the download skips
    no Stage 3 item: it does nothing when the Stage 3 column is empty, and
    otherwise [generateZipPackage] calls [zip.file] once per Stage 3 item,
    in order, with the item's name and file, and then once for the
    manifest, whose text has one line per Stage 3 item. *)
Theorem X17_download_skips_nothing (events : list Event) :
  let s := run initial events in
  let exported := stageView Stage3 (queue s) in
  handleDownload s
  = if decide (exported = []) then None
    else Some (map (λ it, (default "" (newName it), FileData (file it))) exported
               ++ [("data_summary.csv",
                    TextData (append csvHeader
                      (joinRows (map (λ it, csvRow (originalName it)
                                               (default "" (newName it))
                                               (folderName it) (safeTemp it))
                                     exported))))])%list.
Proof.
  intros s exported. subst exported s. rewrite handleDownload_eq.
  case_decide; [done|]. f_equal. rewrite generateZipPackage_eq.
  pose proof (run_wellFormed events initial initial_settled (Forall_nil_2 _)) as Hw.
  by rewrite (wellFormed_eligible _ Hw).
Qed.

(** X18. Starting with an empty queue and an integer start index [z],
    not below [-2^53] and with [z] plus the number of image files selected
    later not above [2^53]: as long as the prefix and the start index are
    not edited, the paths passed to [zip.file] by a download are pairwise
    different, and none of the files is filed under the path of the
    manifest: no call replaces the entry of another one. *)
Theorem X18_archive_paths_distinct (s0 : State) (z : Z) (events : list Event)
    (zip : Zip) :
  queue s0 = [] → startIndex s0 = JS.Fin z → - JS.exactLimit ≤ z →
  z + Z.of_nat (length (drawnIds events)) ≤ JS.exactLimit →
  Forall keepsNaming events →
  handleDownload (run s0 events) = Some zip →
  NoDup (map fst zip).
Proof.
  intros E Hz Hl Hu K D.
  destruct (empty_queue_numbered s0 z (length (drawnIds events) + 0) E Hz Hl)
    as [Hs Hn]; [lia|].
  destruct (numbered_run z 0 events s0 Hs K Hn) as (cur & _ & B & R & F & N).
  set (s := run s0 events) in *.
  rewrite handleDownload_eq in D. case_decide; [done|]. injection D as <-.
  rewrite generateZipPackage_eq, map_app, map_map. simpl.
  set (elig := filter (λ it, JS.truthy (newName it)) (stageView Stage3 (queue s))).
  assert (elig `sublist_of` lockedItems (queue s)) as Sub.
  { unfold elig, stageView, lockedItems. rewrite list_filter_filter.
    apply filter_sublist_weaken. intros it [_ G]. congruence. }
  assert (∀ it, it ∈ elig →
            ∃ n, newName it = Some (previewAt (prefix s) (JS.Fin n) it)
                 ∧ JS.exact n) as Named.
  { intros it I. apply (sublist_subseteq _ _ Sub) in I.
    apply list_elem_of_filter in I as [G I].
    destruct (proj1 (Forall_forall _ _) F it I G) as (n & Hn' & Bn).
    exists n. split; [done|]. unfold JS.exact. lia. }
  apply NoDup_app. split; [|split].
  - rewrite <- (map_map newName (default "")).
    apply NoDup_fmap_2_strong.
    + intros x y Hx Hy Exy.
      apply list_elem_of_fmap in Hx as (a & -> & Ha).
      apply list_elem_of_fmap in Hy as (b & -> & Hb).
      destruct (Named a Ha) as (n & Pa & _), (Named b Hb) as (m & Pb & _).
      rewrite Pa, Pb in *. simpl in Exy. by rewrite Exy.
    + eapply sublist_NoDup; [exact N|]. by apply sublist_map.
  - intros x Hx Hm. apply list_elem_of_fmap in Hx as (a & -> & Ha).
    destruct (Named a Ha) as (n & Pa & En). rewrite Pa in Hm. simpl in Hm.
    apply list_elem_of_singleton in Hm. by apply previewAt_not_manifest in Hm.
  - apply NoDup_singleton.
Qed.

Lemma X18_archive_paths_distinct_witness :
  NoDup (map fst
    [("01-001.jpg", FileData (photo "siteA-1" "a.jpg"));
     ("01-002.png", FileData (photo "siteA-1" "b.png"));
     ("data_summary.csv",
      TextData (csvHeader
                ++ csvRow "a.jpg" "01-001.jpg" "siteA-1" "23.5"
                ++ csvRow "b.png" "01-002.png" "siteA-1" "N/A"))]).
Proof.
  apply (X18_archive_paths_distinct initial 1
           [SelectFiles (counting 0) (take 2 batchA); ClickMoveToStage2 true;
            EditTemperature "0" "23.5"; ClickMoveToStage3 true]).
  - reflexivity.
  - reflexivity.
  - vm_compute. discriminate.
  - vm_compute. discriminate.
  - repeat constructor.
  - vm_compute. reflexivity.
Defined.

(** ** Lines of the manifest *)

Section ManifestLines.

Lemma countChar_csvRow (a b c d : string) :
  JS.includes "010" a = false → JS.includes "010" b = false →
  JS.includes "010" c = false → JS.includes "010" d = false →
  countChar "010" (csvRow a b c d) = 1%nat.
Proof.
  intros Ha Hb Hc Hd. unfold csvRow. rewrite !countChar_append.
  rewrite (countChar_absent _ _ Ha), (countChar_absent _ _ Hb),
    (countChar_absent _ _ Hc), (countChar_absent _ _ Hd). reflexivity.
Qed.

Lemma countChar_joinRows (l : list FileQueueItem) :
  Forall fieldsOnOneLine l →
  countChar "010"
    (joinRows (map (λ it, csvRow (originalName it) (default "" (newName it))
                                 (folderName it) (safeTemp it)) l))
  = length l.
Proof.
  intros H.
  assert (∀ (f : FileQueueItem → string) (k : list FileQueueItem),
            Forall (λ it, countChar "010" (f it) = 1%nat) k →
            countChar "010" (joinRows (map f k)) = length k) as G.
  { clear. intros f k. induction 1 as [|it l' Hit _ IH]; [done|].
    change (joinRows (map f (it :: l'))) with (f it ++ joinRows (map f l')).
    rewrite countChar_append, Hit, IH. reflexivity. }
  apply G. eapply Forall_impl; [exact H|].
  intros it (Ha & Hb & Hc & Hd). by apply countChar_csvRow.
Qed.

End ManifestLines.

(** X19. When no field of an item (original name, new name, folder,
    temperature) contains a line break, the manifest is the last entry of
    the archive and has exactly one line for the header and one line per
    item filed. Fields are written as they are, without escaping. *)
Theorem X19_manifest_one_line_per_item (items : list FileQueueItem) :
  Forall fieldsOnOneLine items →
  ∃ text,
    last (generateZipPackage items) = Some ("data_summary.csv", TextData text)
    ∧ countChar "010" text
      = S (length (filter (λ it, JS.truthy (newName it)) items)).
Proof.
  intros H. eexists. rewrite generateZipPackage_eq, last_snoc. split; [done|].
  rewrite countChar_append, countChar_joinRows; [done|].
  apply Forall_forall. intros it [_ I]%list_elem_of_filter.
  by apply (proj1 (Forall_forall _ _) H).
Qed.

Lemma X19_manifest_one_line_per_item_witness :
  let items := queue (run initial [SelectFiles (counting 0) batchA;
                                   ClickMoveToStage2 true]) in
  ∃ text,
    last (generateZipPackage items) = Some ("data_summary.csv", TextData text)
    ∧ countChar "010" text
      = S (length (filter (λ it, JS.truthy (newName it)) items)).
Proof.
  intros items. apply X19_manifest_one_line_per_item.
  vm_compute. repeat constructor.
Defined.

(** ** Locked items and the controls of the page *)

Section Offered.

Implicit Types (q : list FileQueueItem) (s : State) (e : Event).

Lemma Forall2_sublist_l {A B} (R : A → B → Prop) (l l' : list A) (k : list B) :
  Forall2 R l k → l' `sublist_of` l → ∃ k', k' `sublist_of` k ∧ Forall2 R l' k'.
Proof.
  intros F. revert l'. induction F as [|x y l k Hxy _ IH]; intros l' S.
  - apply sublist_nil_r in S as ->. by exists [].
  - inversion S as [|a l1 l2 S'|a l1 l2 S']; subst.
    + destruct (IH _ S') as (k' & Sk & Fk). exists (y :: k').
      split; by constructor.
    + destruct (IH _ S') as (k' & Sk & Fk). exists k'. split; [by constructor|done].
Qed.

Lemma carried_refl q : carried q q.
Proof. exists (lockedItems q). split; [done|apply Forall2_persists_refl]. Qed.

Lemma carried_trans q1 q2 q3 : carried q1 q2 → carried q2 q3 → carried q1 q3.
Proof.
  intros (l2 & S2 & F2) (l3 & S3 & F3).
  destruct (Forall2_sublist_l _ _ _ _ F3 S2) as (k & Sk & Fk).
  exists k. split; [by etrans|by eapply Forall2_persists_trans].
Qed.

Lemma carried_same_locked q q' : lockedItems q' = lockedItems q → carried q q'.
Proof.
  intros E. exists (lockedItems q). rewrite E. split; [done|apply Forall2_persists_refl].
Qed.

Lemma lockedItems_map q (f : FileQueueItem → FileQueueItem) :
  (∀ it, stage (f it) = Stage1 ↔ stage it = Stage1) →
  lockedItems (map f q) = map f (lockedItems q).
Proof.
  intros Hs. unfold lockedItems. induction q as [|it q IH]; simpl; [done|].
  rewrite !filter_cons. destruct (decide (stage it ≠ Stage1)) as [E|E].
  - rewrite decide_True by by rewrite Hs. simpl. by rewrite IH.
  - rewrite decide_False by by rewrite Hs. done.
Qed.

Lemma carried_map q (f : FileQueueItem → FileQueueItem) :
  (∀ it, stage (f it) = Stage1 ↔ stage it = Stage1) → (∀ it, persists it (f it)) →
  carried q (map f q).
Proof.
  intros Hs Hp. exists (map f (lockedItems q)). rewrite lockedItems_map by done.
  split; [done|]. by apply Forall2_persists_map.
Qed.

Lemma carried_commit q :
  carried q (map (λ it, if decide (stage it = Stage1) then with_lock it else it) q).
Proof.
  exists (lockedItems q). split; [|apply Forall2_persists_refl].
  unfold lockedItems. induction q as [|it q IH]; [done|]. simpl.
  rewrite !filter_cons. destruct (decide (stage it = Stage1)) as [E|E].
  - rewrite decide_False by (intros G; by apply G).
    rewrite decide_True by done. by constructor.
  - rewrite !decide_True by done. by constructor.
Qed.

Lemma filter_ext_Forall {A} (P Q : A → Prop) `{∀ x, Decision (P x)}
    `{∀ x, Decision (Q x)} (l : list A) :
  Forall (λ x, P x ↔ Q x) l → filter P l = filter Q l.
Proof.
  induction 1 as [|x l Hx _ IH]; [done|]. rewrite !filter_cons.
  destruct (decide (P x)) as [p|p].
  - rewrite decide_True by by apply Hx. by rewrite IH.
  - rewrite decide_False by by rewrite <- Hx. done.
Qed.

Lemma same_id_same_item q a b :
  NoDup (map item_id q) → a ∈ q → b ∈ q → item_id a = item_id b → a = b.
Proof.
  intros N [i Hi]%list_elem_of_lookup [j Hj]%list_elem_of_lookup E.
  assert (i = j) as ->; [|congruence].
  eapply NoDup_lookup; [exact N|..].
  - by rewrite list_lookup_fmap, Hi.
  - rewrite list_lookup_fmap, Hj. simpl. by rewrite E.
Qed.

Lemma carried_remove (id : string) q :
  NoDup (map item_id q) →
  (∃ it, it ∈ stageView Stage1 q ∧ item_id it = id) →
  carried q (filter (λ it, item_id it ≠ id) q).
Proof.
  intros N (x & [Ex Ix]%list_elem_of_filter & <-).
  apply carried_same_locked. unfold lockedItems.
  rewrite list_filter_filter. apply filter_ext_Forall, Forall_forall.
  intros it I. split; [tauto|]. intros G. split; [done|]. intros E.
  assert (it = x) as -> by by eapply same_id_same_item. done.
Qed.

Lemma handle_carried s e :
  NoDup (map item_id (queue s)) → offered s e →
  carried (queue s) (queue (handle e s)).
Proof.
  intros N O.
  destruct e as [v|v|v|b|random files|[]|ok|id value|id];
    try apply carried_refl.
  - unfold handle. rewrite processFiles_queue. apply carried_same_locked.
    unfold lockedItems. rewrite filter_app, (filter_none _ (filteredFiles _ _ _)).
    + by rewrite app_nil_r.
    + eapply Forall_impl; [apply filteredFiles_fresh|]. by intros it (E & _) G.
  - unfold handle. rewrite moveToStage2_queue. apply carried_commit.
  - unfold handle. destruct (moveToStage3_declined s) as [E|E]; destruct ok;
      rewrite ?E; try apply carried_refl;
      rewrite moveToStage3_queue; (apply carried_map; [|apply persists_advance]);
      intros it; (case_decide as G; [|done]); simpl; rewrite G; split; discriminate.
  - unfold handle, updateTemperature. simpl.
    apply carried_map; [|apply persists_edit]. intros it. by case_decide.
  - by apply carried_remove.
Qed.

Lemma step_carried s e :
  NoDup (map item_id (queue s)) → offered s e →
  carried (queue s) (queue (step s e)).
Proof.
  intros N O. eapply carried_trans; [by apply handle_carried|].
  apply carried_same_locked. unfold step, rerender. case_decide; [done|].
  unfold previewEffect. simpl. apply lockedItems_recompute.
Qed.

Lemma run_carried events s :
  NoDup (map item_id (queue s) ++ drawnIds events) → offeredRun s events →
  carried (queue s) (queue (run s events)).
Proof.
  revert s; induction events as [|e events IH]; intros s N O; [apply carried_refl|].
  destruct O as [Oe Or]. simpl run.
  unfold drawnIds in N. simpl in N. rewrite app_assoc in N.
  eapply carried_trans.
  - apply step_carried; [|done]. apply NoDup_app in N as [N _].
    by apply NoDup_app in N as [N _].
  - apply IH; [|done]. eapply sublist_NoDup; [exact N|].
    apply sublist_app; [apply step_ids|done].
Qed.

End Offered.

(** X20. The page offers the remove button on Stage 1 cards only. In a
    run made of controls the page offers, with identifiers that are
    pairwise different, no locked item is ever lost: every item past
    Stage 1 is still in the queue afterwards, in the same order, with the
    same identifier, file and [newName], at the same or a later stage. *)
Theorem X20_locked_items_stay (s : State) (events : list Event) :
  NoDup (map item_id (queue s) ++ drawnIds events)%list →
  offeredRun s events →
  ∃ later,
    later `sublist_of` filter (λ it, stage it ≠ Stage1) (queue (run s events))
    ∧ Forall2 (λ it it',
         item_id it' = item_id it ∧ file it' = file it
         ∧ newName it' = newName it
         ∧ stageNum (stage it) ≤ stageNum (stage it'))
        (filter (λ it, stage it ≠ Stage1) (queue s)) later.
Proof.
  intros N O. destruct (run_carried events s N O) as (later & S & F).
  exists later. split; [exact S|].
  assert (Forall (λ it, stage it ≠ Stage1) (lockedItems (queue s))) as P.
  { apply Forall_forall. by intros it [G _]%list_elem_of_filter. }
  fold (lockedItems (queue s)). revert P F. generalize (lockedItems (queue s)).
  clear. intros l P F. induction F as [|it it' l k H _ IH]; [constructor|].
  inversion_clear P as [|?? G P']. constructor; [|by apply IH].
  destruct H as (I & Fi & _ & _ & M & L). by rewrite (L G).
Qed.

Lemma X20_locked_items_stay_witness :
  let s := run initial [SelectFiles (counting 0) batchA; ClickMoveToStage2 true] in
  let events := [SelectFiles (counting 10) batchB; ClickRemove "10";
                 EditTemperature "1" "23.5"; ClickMoveToStage3 true] in
  ∃ later,
    later `sublist_of` filter (λ it, stage it ≠ Stage1) (queue (run s events))
    ∧ Forall2 (λ it it',
         item_id it' = item_id it ∧ file it' = file it
         ∧ newName it' = newName it
         ∧ stageNum (stage it) ≤ stageNum (stage it'))
        (filter (λ it, stage it ≠ Stage1) (queue s)) later.
Proof.
  intros s events. apply X20_locked_items_stay.
  - refine (bool_decide_unpack _ _). vm_compute. exact I.
  - split; [exact I|]. split.
    + exists (mkItem "10" (photo "siteB-1" "d.jpeg") "d.jpeg" "siteB-1" Stage1
                     idle None None (Some "01-004.jpeg")).
      split; [|reflexivity]. refine (bool_decide_unpack _ _). vm_compute. exact I.
    + split.
      * exists (mkItem "1" (photo "siteA-1" "b.png") "b.png" "siteA-1" Stage2
                       idle None (Some "01-002.png") (Some "01-002.png")).
        split; [|reflexivity]. refine (bool_decide_unpack _ _). vm_compute. exact I.
      * split; [|exact I]. vm_compute. discriminate.
Defined.

(** ** Exported items are final *)

Section Exported.

Implicit Types (q : list FileQueueItem) (s : State) (e : Event).

Lemma stageView_map_Forall (g : Stage) (f : FileQueueItem → FileQueueItem) q :
  (∀ it, stage (f it) = stage it) →
  Forall (λ it, stage it = g → f it = it) q →
  stageView g (map f q) = stageView g q.
Proof.
  intros Hs F. unfold stageView. induction F as [|it q Hit _ IH]; [done|]. simpl.
  rewrite !filter_cons, Hs. destruct (decide (stage it = g)) as [E|E]; [|done].
  by rewrite IH, (Hit E).
Qed.

Lemma stage3_not_offered_id (id : string) (g : Stage) q :
  g ≠ Stage3 → NoDup (map item_id q) →
  (∃ it, it ∈ stageView g q ∧ item_id it = id) →
  Forall (λ it, stage it = Stage3 → item_id it ≠ id) q.
Proof.
  intros G N (x & [Ex Ix]%list_elem_of_filter & <-).
  apply Forall_forall. intros it I E D.
  assert (it = x) as -> by by eapply same_id_same_item. congruence.
Qed.

Lemma advance_exported q :
  stageView Stage3 q
  `sublist_of` stageView Stage3
     (map (λ it, if decide (stage it = Stage2) then with_stage Stage3 it else it) q).
Proof.
  unfold stageView. induction q as [|it q IH]; [done|]. simpl.
  rewrite !filter_cons. destruct (stage it) eqn:E; simpl; rewrite ?E; simpl.
  - done.
  - by constructor.
  - by constructor.
Qed.

Lemma handle_exported s e :
  NoDup (map item_id (queue s)) → offered s e →
  stageView Stage3 (queue s) `sublist_of` stageView Stage3 (queue (handle e s)).
Proof.
  intros N O.
  destruct e as [v|v|v|b|random files|[]|ok|id value|id]; try done.
  - unfold handle. rewrite processFiles_queue. unfold stageView.
    rewrite filter_app. by apply sublist_inserts_r.
  - unfold handle. rewrite moveToStage2_queue. rewrite stageView_map; [done|..].
    + intros it. case_decide as E; [|done]. simpl. rewrite E. split; discriminate.
    + intros it E. rewrite decide_False; [done|]. congruence.
  - unfold handle. destruct (moveToStage3_declined s) as [E|E]; destruct ok;
      rewrite ?E; try done; rewrite moveToStage3_queue; apply advance_exported.
  - unfold handle, updateTemperature. simpl. rewrite stageView_map_Forall; [done|..].
    + intros it. by case_decide.
    + eapply Forall_impl; [by apply (stage3_not_offered_id id Stage2)|].
      intros it H E. simpl. rewrite decide_False; [done|]. by apply H.
  - unfold handle, removeItem. simpl. unfold stageView.
    assert (filter (λ it, stage it = Stage3)
                   (filter (λ it, item_id it ≠ id) (queue s))
            = filter (λ it, stage it = Stage3) (queue s)) as ->; [|done].
    rewrite list_filter_filter. apply filter_ext_Forall.
    eapply Forall_impl; [by apply (stage3_not_offered_id id Stage1)|].
    intros it H. simpl. split; [tauto|]. intros E. split; [done|]. by apply H.
Qed.

Lemma run_exported events s :
  NoDup (map item_id (queue s) ++ drawnIds events) → offeredRun s events →
  stageView Stage3 (queue s) `sublist_of` stageView Stage3 (queue (run s events)).
Proof.
  revert s; induction events as [|e events IH]; intros s N O; [done|].
  destruct O as [Oe Or]. simpl run.
  unfold drawnIds in N. simpl in N. rewrite app_assoc in N.
  etrans; [|apply IH; [|done]].
  - unfold step. rewrite stageView_rerender by done. apply handle_exported; [|done].
    apply NoDup_app in N as [N _]. by apply NoDup_app in N as [N _].
  - eapply sublist_NoDup; [exact N|]. apply sublist_app; [apply step_ids|done].
Qed.

End Exported.

(** X21. An exported item is final. In a run made of controls the page
    offers, with identifiers that are pairwise different, every Stage 3
    item stays in the Stage 3 column exactly as it is, field for field,
    and in the same order; the column only gains items. *)
Theorem X21_exported_items_are_final (s : State) (events : list Event) :
  NoDup (map item_id (queue s) ++ drawnIds events)%list →
  offeredRun s events →
  stageView Stage3 (queue s) `sublist_of` stageView Stage3 (queue (run s events)).
Proof. apply run_exported. Qed.

Lemma X21_exported_items_are_final_witness :
  let s := run initial [SelectFiles (counting 0) batchA; ClickMoveToStage2 true;
                        ClickMoveToStage3 true] in
  let events := [SelectFiles (counting 10) batchB; ClickRemove "11";
                 ClickMoveToStage2 true; EditTemperature "10" "19.0";
                 ClickMoveToStage3 true] in
  stageView Stage3 (queue s) `sublist_of` stageView Stage3 (queue (run s events)).
Proof.
  intros s events. apply X21_exported_items_are_final.
  - refine (bool_decide_unpack _ _). vm_compute. exact I.
  - split; [exact I|]. split.
    + exists (mkItem "11" (photo "siteB-1" "e.JPG") "e.JPG" "siteB-1" Stage1
                     idle None None (Some "01-005.JPG")).
      split; [|reflexivity]. refine (bool_decide_unpack _ _). vm_compute. exact I.
    + split; [vm_compute; discriminate|]. split.
      * exists (mkItem "10" (photo "siteB-1" "d.jpeg") "d.jpeg" "siteB-1" Stage2
                       idle None (Some "01-004.jpeg") (Some "01-004.jpeg")).
        split; [|reflexivity]. refine (bool_decide_unpack _ _). vm_compute. exact I.
      * split; [|exact I]. vm_compute. discriminate.
Defined.
